(** * JMeter live-monitoring dashboard: ingest, percentiles, aggregates, time series

    A shallow embedding of the request handlers of [notreqired.py] and
    [server.py], and the properties of the ingest normalizer, the percentile
    calculator, the aggregate engine and the time-series builder.

    Conventions of the embedding:
    - In the handlers Python [float]s are exact rationals ([Q]): what is
      proved of them are ranks, counts, comparisons and the code's own
      expressions.  The percentile calculator is embedded a second time
      over IEEE binary64, in [Double], for what depends on the value the
      code computes.  [int]s are [Z].
    - An operation that can raise returns a [result]; an uncaught exception
      is a 500 response and leaves the table untouched.
    - The SQLite table [jmeter_samples] is a list of [Sample]s in rowid
      (insertion) order, and a [SELECT] without [ORDER BY] scans it in that
      order.  TEXT columns hold strings.
    - A handler is a function of the world it runs against: the table and
      the clock read by [time.time()].
    - Query arguments read with [request.args.get(..., type=int)] are
      [option Z]: [None] when the argument is missing or is no integer.
    - Where a payload value has a shape whose Python or SQLite treatment is
      not modelled (the text of a float, a number bound to a TEXT column),
      the operation answers [Raise Unsupported]. *)

From Stdlib Require Import ZArith QArith Qround Lia Sorting.Sorted.
From Stdlib Require Import Floats.SpecFloat.
From Stdlib Require Import Strings.String DecimalString.
From stdpp Require Import base option list gmap strings.

Local Open Scope Z_scope.

(** ** Python runtime fragments *)

Module Py.

Inductive exn : Type :=
  | TypeError
  | IndexError
  | AttributeError
  | InterfaceError   (* sqlite3: a parameter of an unsupported type *)
  | NameError        (* a global name that is bound nowhere *)
  | OverflowError    (* an integer or infinity beyond the other number type *)
  | ValueError       (* [math.floor] and [math.ceil] of a NaN *)
  | Unsupported.     (* a value shape outside the modelled fragment *)

Inductive result (A : Type) : Type :=
  | Ok (a : A)
  | Raise (e : exn).
Arguments Ok {A} a.
Arguments Raise {A} e.

Definition bind {A B} (m : result A) (k : A -> result B) : result B :=
  match m with
  | Ok a => k a
  | Raise e => Raise e
  end.

#[global] Instance result_ret : MRet result := @Ok.
#[global] Instance result_bind : MBind result := fun A B k m => bind m k.

(** [l[i]] with Python's negative indices. *)
Definition index {A} (l : list A) (i : Z) : result A :=
  let n := Z.of_nat (length l) in
  let j := if i <? 0 then n + i else i in
  if (0 <=? j) && (j <? n)
  then match l !! Z.to_nat j with
       | Some x => Ok x
       | None => Raise IndexError
       end
  else Raise IndexError.

(** [range(start, stop)]. *)
Definition range (start stop : Z) : list Z :=
  (fun i : nat => start + Z.of_nat i) <$> seq 0 (Z.to_nat (stop - start)).

(** [int(x)] on a float: truncation towards zero. *)
Definition int_of_float (x : Q) : Z :=
  if Qle_bool 0 x then Qfloor x else Qceiling x.

(** Rounding to the nearest integer, ties to the even one. *)
Definition round_half_even (x : Q) : Z :=
  let f := Qfloor x in
  let r := (x - inject_Z f)%Q in
  match (r ?= 1 # 2)%Q with
  | Lt => f
  | Gt => f + 1
  | Eq => if Z.even f then f else f + 1
  end.

(** [round(x, 2)]. *)
Definition round2 (x : Q) : Q :=
  (inject_Z (round_half_even (x * 100)) / 100)%Q.

(** [round(v, 2)] where [v] may be [None]. *)
Definition round2_opt (v : option Q) : result Q :=
  match v with
  | Some x => Ok (round2 x)
  | None => Raise TypeError
  end.

(** [sum(l)] on floats. *)
Definition sum (l : list Q) : Q := foldl Qplus 0%Q l.

(** [sorted(l)] on floats: a stable ascending sort. *)
Fixpoint insert_asc (x : Q) (l : list Q) : list Q :=
  match l with
  | [] => [x]
  | y :: l' => if Qle_bool x y then x :: l else y :: insert_asc x l'
  end.

Definition sorted (l : list Q) : list Q := foldr insert_asc [] l.

(** [min(l)] and [max(l)] on a non-empty list of floats; the first element
    seeds the fold as in the builtin.  On the empty list the builtins raise;
    the seed is then [0] and no caller relies on it. *)
Definition min_step (m y : Q) : Q := if Qlt_le_dec y m then y else m.
Definition max_step (m y : Q) : Q := if Qlt_le_dec m y then y else m.

Definition min (l : list Q) : Q :=
  match l with
  | [] => 0%Q
  | x :: l' => foldl min_step x l'
  end.

Definition max (l : list Q) : Q :=
  match l with
  | [] => 0%Q
  | x :: l' => foldl max_step x l'
  end.

(** A stable descending sort by an integer key:
    [sorted(l, key=..., reverse=True)]. *)
Fixpoint insert_desc {A} (key : A -> Z) (x : A) (l : list A) : list A :=
  match l with
  | [] => [x]
  | y :: l' => if key y <=? key x then x :: l else y :: insert_desc key x l'
  end.

Definition sorted_desc {A} (key : A -> Z) (l : list A) : list A :=
  foldr (insert_desc key) [] l.

(** Ascending order as a test: every element is at most its successor. *)
Fixpoint is_sorted (l : list Q) : bool :=
  match l with
  | [] => true
  | x :: l' =>
      match l' with
      | [] => true
      | y :: _ => Qle_bool x y && is_sorted l'
      end
  end.

(** *** Parsed JSON bodies *)

#[local] Set Warnings "-register-all".
Inductive json : Type :=
  | JNull
  | JBool (b : bool)
  | JInt (z : Z)
  | JFloat (q : Q)
  | JStr (s : string)
  | JArr (l : list json)
  | JObj (m : gmap string json).
#[local] Set Warnings "register-all".

(** Truth value of a Python object. *)
Definition truthy (v : json) : bool :=
  match v with
  | JNull => false
  | JBool b => b
  | JInt z => negb (z =? 0)
  | JFloat q => negb (Qeq_bool q 0)
  | JStr s => negb (String.eqb s "")
  | JArr l => match l with [] => false | _ => true end
  | JObj m => bool_decide (m <> ∅)
  end.

(** [d.get(key, default)]. *)
Definition get (d : gmap string json) (key : string) (default : json) : json :=
  match d !! key with
  | Some v => v
  | None => default
  end.

(** [key in d]. *)
Definition contains (d : gmap string json) (key : string) : bool :=
  bool_decide (is_Some (d !! key)).

(** [v > 0]; ordering a string, [None], a list or a dict against an [int]
    raises [TypeError]. *)
Definition gt_zero (v : json) : result bool :=
  match v with
  | JInt z => Ok (0 <? z)
  | JFloat q => Ok (negb (Qle_bool q 0))
  | JBool b => Ok b
  | _ => Raise TypeError
  end.

Definition str_of_int (z : Z) : string := NilZero.string_of_int (Z.to_int z).

(** [str(v)].  The text of a float, a list or a dict is outside the
    modelled fragment. *)
Definition str (v : json) : result string :=
  match v with
  | JStr s => Ok s
  | JInt z => Ok (str_of_int z)
  | JBool b => Ok (if b then "True" else "False")%string
  | JNull => Ok "None"%string
  | _ => Raise Unsupported
  end.

(** [float(v)].  Parsing a string is outside the modelled fragment. *)
Definition float (v : json) : result Q :=
  match v with
  | JInt z => Ok (inject_Z z)
  | JFloat q => Ok q
  | JBool b => Ok (if b then 1 else 0)%Q
  | JStr _ => Raise Unsupported
  | _ => Raise TypeError
  end.

(** [int(v)].  Parsing a string is outside the modelled fragment. *)
Definition int (v : json) : result Z :=
  match v with
  | JInt z => Ok z
  | JFloat q => Ok (int_of_float q)
  | JBool b => Ok (if b then 1 else 0)
  | JStr _ => Raise Unsupported
  | _ => Raise TypeError
  end.

(** A truthy optional integer query argument: [if start:]. *)
Definition truthy_int (a : option Z) : option Z :=
  match a with
  | Some z => if z =? 0 then None else Some z
  | None => None
  end.

(** A truthy optional string query argument: [if label:]. *)
Definition truthy_str (a : option string) : option string :=
  match a with
  | Some s => if String.eqb s "" then None else Some s
  | None => None
  end.

(** [a or b] on an optional integer. *)
Definition or_else (a : option Z) (b : Z) : Z :=
  match truthy_int a with
  | Some z => z
  | None => b
  end.

End Py.

Import Py.

(** ** The sample store *)

(** A row of [jmeter_samples] (lines 14-25). *)
Record Sample : Type := mkSample {
  timestamp : Z;
  label : string;
  response_time : Q;
  success : Z;
  thread_count : Z;
  status_code : string;
  error_message : string
}.

Module Sql.

(** The conditions the handlers put into a [WHERE] clause, each with its
    bound parameter. *)
Inductive cond : Type :=
  | LabelEq (l : string)       (* label = ? *)
  | TimestampGe (t : Z)        (* timestamp >= ? *)
  | TimestampLe (t : Z)        (* timestamp <= ? *)
  | TimestampBetween (a b : Z) (* timestamp BETWEEN ? AND ? *)
  | SuccessEq (v : Z).         (* success=0, success=1 *)

Definition holds (c : cond) (s : Sample) : bool :=
  match c with
  | LabelEq l => String.eqb (label s) l
  | TimestampGe t => t <=? timestamp s
  | TimestampLe t => timestamp s <=? t
  | TimestampBetween a b => (a <=? timestamp s) && (timestamp s <=? b)
  | SuccessEq v => success s =? v
  end.

(** [SELECT ... FROM jmeter_samples WHERE c1 AND c2 ...]: the rows that
    pass, in table order. *)
Definition select (conds : list cond) (table : list Sample) : list Sample :=
  List.filter (fun s => forallb (fun c => holds c s) conds) table.

(** The distinct values of an integer column, ascending. *)
Fixpoint insert_key (t : Z) (l : list Z) : list Z :=
  match l with
  | [] => [t]
  | u :: l' =>
      if t <? u then t :: l
      else if t =? u then l
      else u :: insert_key t l'
  end.

Definition distinct_timestamps (rows : list Sample) : list Z :=
  foldr (fun s acc => insert_key (timestamp s) acc) [] rows.

(** [GROUP BY timestamp ORDER BY timestamp ASC]: one group per distinct
    second, ascending, each with its rows. *)
Definition group_by_timestamp (rows : list Sample) : list (Z * list Sample) :=
  (fun t => (t, List.filter (fun s => timestamp s =? t) rows))
    <$> distinct_timestamps rows.

(** [COUNT( * )] of a group. *)
Definition count (g : list Sample) : Z := Z.of_nat (length g).

(** [AVG(col)] of a non-empty group: a REAL. *)
Definition avg (col : Sample -> Q) (g : list Sample) : Q :=
  (Py.sum (col <$> g) / inject_Z (count g))%Q.

(** The distinct values of a column in order of first appearance. *)
Definition distinct {K} `{EqDecision K} (l : list K) : list K :=
  foldl (fun acc x => if bool_decide (x ∈ acc) then acc else acc ++ [x]) [] l.

End Sql.

(** ** Handlers as state transformers *)

(** What a request runs against: the table behind [DB_FILE] and the clock
    read by [time.time()]. *)
Record World : Type := mkWorld {
  table : list Sample;
  clock : Z
}.

Module Handler.

(** A handler maps the world to its answer and the world it leaves. *)
Definition M (A : Type) : Type := World -> result A * World.

Definition ret {A} (a : A) : M A := fun w => (Ok a, w).

Definition bind {A B} (m : M A) (k : A -> M B) : M B :=
  fun w =>
    match m w with
    | (Ok a, w') => k a w'
    | (Raise e, w') => (Raise e, w')
    end.

#[global] Instance M_ret : MRet M := @ret.
#[global] Instance M_bind : MBind M := fun A B k m => bind m k.

(** An operation that may raise and does not touch the world. *)
Definition lift {A} (r : result A) : M A := fun w => (r, w).

(** [int(time.time())]. *)
Definition time_time : M Z := fun w => (Ok (clock w), w).

(** [run_query(q, params)] (lines 29-35): open, execute a [SELECT], fetch
    all, close.  [q] is the statement's meaning on the table. *)
Definition run_query {A} (q : list Sample -> A) : M A :=
  fun w => (Ok (q (table w)), w).

(** [INSERT INTO jmeter_samples ... VALUES (...)] followed by [commit]. *)
Definition insert (s : Sample) : M unit :=
  fun w => (Ok tt, {| table := table w ++ [s]; clock := clock w |}).

End Handler.

Import Handler.

(** ** The handlers shared by both server files *)

Module Dashboard.

(** A value bound to a TEXT column by the [INSERT].  sqlite3 refuses lists
    and dicts; how the column stores [None] or a number is outside the
    modelled fragment. *)
Definition bind_text (v : json) : result string :=
  match v with
  | JStr s => Ok s
  | JArr _ | JObj _ => Raise InterfaceError
  | _ => Raise Unsupported
  end.

(** The success flag, lines 49-53. *)
Definition resolve_success (data : gmap string json) : result Z :=
  if contains data "success" then
    Ok (if truthy (get data "success" JNull) then 1 else 0)
  else if contains data "errorPct" then
    positive ← gt_zero (get data "errorPct" (JInt 0));
    Ok (if positive : bool then 0 else 1)
  else Ok 1.

(** [receive_metrics()], lines 39-70 of both files; [data] is
    [request.json].  The answer is the HTTP status. *)
Definition receive_metrics (data : json) : M Z :=
  if negb (truthy data) then mret 400
  else
    match data with
    | JObj data =>
        let label := get data "label" (get data "sampler" (JStr "ALL")) in
        let rt := get data "responseTime"
                    (get data "avgResponseTime" (get data "avg" (JFloat 0))) in
        success ← lift (resolve_success data);
        status_code ← lift (str (get data "statusCode" (get data "rc" (JStr "200"))));
        let error_message :=
          if success =? 0
          then get data "errorMessage" (get data "errorMsg" (JStr ""))
          else JStr "" in
        thread_count ← lift (int (get data "activeThreads" (get data "threads" (JInt 0))));
        ts ← time_time;
        rt ← lift (float rt);
        label ← lift (bind_text label);
        error_message ← lift (bind_text error_message);
        insert (mkSample ts label rt success thread_count status_code error_message);;
        mret 200
    | _ => lift (Raise AttributeError)
    end.

(** *** The field resolution of the specification *)

(** Spec 4.1, first present wins: the value under the first alias the
    payload carries, else the default. *)
Fixpoint first_present (data : gmap string json) (aliases : list string)
    (default : json) : json :=
  match aliases with
  | [] => default
  | a :: aliases' =>
      match data !! a with
      | Some v => v
      | None => first_present data aliases' default
      end
  end.







(** What the handler stores for a payload at a given second. *)
Definition resolved (data : gmap string json) (now : Z) (s : Sample) : Prop :=
  timestamp s = now
  /\ bind_text (first_present data ["label"; "sampler"] (JStr "ALL")) = Ok (label s)
  /\ float (first_present data ["responseTime"; "avgResponseTime"; "avg"] (JFloat 0))
     = Ok (response_time s)
  /\ resolve_success data = Ok (success s)
  /\ str (first_present data ["statusCode"; "rc"] (JStr "200")) = Ok (status_code s)
  /\ int (first_present data ["activeThreads"; "threads"] (JInt 0))
     = Ok (thread_count s)
  /\ bind_text (if success s =? 0
                then first_present data ["errorMessage"; "errorMsg"] (JStr "")
                else JStr "") = Ok (error_message s).

(** [percentile(sorted_list, pct)], lines 73-83 of both files, in the
    exact arithmetic of the handlers: the test for the empty list, the two
    ranks and the indexing are the code's; the interpolated value is the
    exact one.  [Double.percentile] is the function in the code's own
    arithmetic. *)
Definition percentile (sorted_list : list Q) (pct : Q) : result (option Q) :=
  match sorted_list with
  | [] => Ok None
  | _ :: _ =>
      let k := (inject_Z (Z.of_nat (length sorted_list) - 1) * (pct / 100))%Q in
      let f := Qfloor k in
      let c := Qceiling k in
      if f =? c then
        x ← index sorted_list (int_of_float k);
        mret (Some x)
      else
        x0 ← index sorted_list f;
        let d0 := (x0 * (inject_Z c - k))%Q in
        x1 ← index sorted_list c;
        let d1 := (x1 * (k - inject_Z f))%Q in
        mret (Some (d0 + d1)%Q)
  end.

(** The per-second dict of both series: [{r[0]: r[1] for r in rows}]. *)
Definition dict_of_rows {V} (rows : list (Z * V)) : gmap Z V :=
  foldl (fun m r => <[r.1 := r.2]> m) ∅ rows.

(** The gap-filling loop shared by the series:
    [for sec in range(start, end+1): ... ts_map.get(sec, 0)]. *)
Definition fill {V} (zero : V) (ts_map : gmap Z V) (start end_ : Z)
  : list Z * list V :=
  let secs := range start (end_ + 1) in
  (secs, (fun sec => default zero (ts_map !! sec)) <$> secs).

(** [SELECT timestamp, COUNT( * ) ... WHERE timestamp BETWEEN ? AND ?
    GROUP BY timestamp ORDER BY timestamp ASC] with [(start, end)]. *)
Definition tps_rows (start end_ : Z) (t : list Sample) : list (Z * Z) :=
  (fun g => (g.1, Sql.count g.2))
    <$> Sql.group_by_timestamp (Sql.select [Sql.TimestampBetween start end_] t).

(** [api_tps()], lines 144-161: [(timestamps, tps)]. *)
Definition api_tps (window end_ : option Z) : M (list Z * list Z) :=
  let window := default 60 window in
  now ← time_time;
  let end_ := or_else end_ now in
  let start := end_ - window + 1 in
  rows ← run_query (tps_rows start end_);
  let ts_map := dict_of_rows rows in
  mret (fill 0 ts_map start end_).

(** [SELECT timestamp, AVG(thread_count) ... WHERE timestamp BETWEEN ? AND ?
    GROUP BY timestamp ORDER BY timestamp ASC] with [(start, end)]. *)
Definition threads_rows (start end_ : Z) (t : list Sample) : list (Z * Q) :=
  (fun g => (g.1, Sql.avg (fun s => inject_Z (thread_count s)) g.2))
    <$> Sql.group_by_timestamp (Sql.select [Sql.TimestampBetween start end_] t).

(** [api_threads()], lines 165-181: [(timestamps, threads)]. *)
Definition api_threads (window end_ : option Z) : M (list Z * list Q) :=
  let window := default 60 window in
  now ← time_time;
  let end_ := or_else end_ now in
  let start := end_ - window + 1 in
  rows ← run_query (threads_rows start end_);
  let ts_map := dict_of_rows ((fun r => (r.1, round2 r.2)) <$> rows) in
  mret (fill 0%Q ts_map start end_).

(** The optional time bounds of [api_aggregate], [api_errors] and
    [api_success]: [if start: conds.append("timestamp >= ?")],
    [if end: conds.append("timestamp <= ?")]. *)
Definition time_conds (start end_ : option Z) : list Sql.cond :=
  (match truthy_int start with
   | Some t => [Sql.TimestampGe t]
   | None => []
   end) ++
  (match truthy_int end_ with
   | Some t => [Sql.TimestampLe t]
   | None => []
   end).

Record ErrorRow : Type := mkErrorRow {
  err_label : string;
  err_status : string;
  err_count : Z;
  err_message : string
}.

(** [api_errors()], lines 185-204.  Groups come in order of first
    appearance and rows of equal count keep it; SQL leaves both the order
    among equal counts and the order inside [GROUP_CONCAT] open. *)
Definition api_errors (start end_ : option Z) : M (list ErrorRow) :=
  let conds := time_conds start end_ in
  rows ← run_query (fun t =>
            let sel := Sql.select (Sql.SuccessEq 0 :: conds) t in
            let keys := Sql.distinct ((fun s => (label s, status_code s)) <$> sel) in
            sorted_desc (fun r => r.1.2)
              ((fun k =>
                  let g := List.filter
                             (fun s => bool_decide ((label s, status_code s) = k)) sel in
                  (k, Sql.count g,
                   String.concat "," (Sql.distinct (error_message <$> g))))
                 <$> keys));
  mret ((fun r => mkErrorRow r.1.1.1 r.1.1.2 r.1.2 r.2) <$> rows).

Record SuccessRow : Type := mkSuccessRow {
  ok_label : string;
  ok_count : Z;
  ok_avg : Q;
  ok_min : Q;
  ok_max : Q
}.

(** [api_success()], lines 208-227; row order as in [api_errors]. *)
Definition api_success (start end_ : option Z) : M (list SuccessRow) :=
  let conds := time_conds start end_ in
  rows ← run_query (fun t =>
            let sel := Sql.select (Sql.SuccessEq 1 :: conds) t in
            sorted_desc (fun r => r.1.1.1.2)
              ((fun l =>
                  let g := List.filter (fun s => String.eqb (label s) l) sel in
                  (l, Sql.count g, Sql.avg response_time g,
                   Py.min (response_time <$> g), Py.max (response_time <$> g)))
                 <$> Sql.distinct (label <$> sel)));
  mret ((fun r => mkSuccessRow r.1.1.1.1 r.1.1.1.2 (round2 r.1.1.2) r.1.2 r.2) <$> rows).

End Dashboard.

(** ** The aggregate endpoint of [notreqired.py] *)

Module Notreqired.

Import Dashboard.

Record AggRow : Type := mkAggRow {
  agg_label : string;
  agg_count : Z;
  agg_avg : Q;
  agg_min : Q;
  agg_max : Q;
  agg_pct90 : Q;
  agg_pct95 : Q;
  agg_pct99 : Q;
  agg_error_pct : Q
}.

(** The dict [agg]: label to [{"samples": [...], "errors": n}], in order of
    insertion. *)
Definition Agg : Type := list (string * (list Q * Z)).

(** One turn of the loop of lines 108-113. *)
Fixpoint agg_add (lab : string) (rt : Q) (succ : Z) (agg : Agg) : Agg :=
  match agg with
  | [] => [(lab, ([rt], if succ =? 0 then 1 else 0))]
  | (l, (samples, errors)) :: agg' =>
      if String.eqb l lab
      then (l, (samples ++ [rt], if succ =? 0 then errors + 1 else errors)) :: agg'
      else (l, (samples, errors)) :: agg_add lab rt succ agg'
  end.

Definition build_agg (rows : list Sample) : Agg :=
  foldl (fun agg r => agg_add (label r) (response_time r) (success r) agg) [] rows.

(** [round(percentile(s, pct), 2) if s else 0]. *)
Definition pct_field (s : list Q) (pct : Q) : result Q :=
  match s with
  | [] => Ok 0%Q
  | _ => v ← percentile s pct; round2_opt v
  end.

(** What a percentile field holds: 0 for an empty list, else the rounded
    answer of [percentile]. *)
Definition from_percentile (s : list Q) (pct : Q) (q : Q) : Prop :=
  match s with
  | [] => q = 0%Q
  | _ => exists v, percentile s pct = Ok (Some v) /\ q = round2 v
  end.

(** [round((errors/count)*100,2) if count else 0]. *)
Definition error_pct_of (count errors : Z) : Q :=
  if count =? 0 then 0%Q
  else round2 (inject_Z errors / inject_Z count * 100).

(** The body of the loop of lines 116-137: the row of one label. *)
Definition build_row (lab : string) (d : list Q * Z) : result AggRow :=
  let s := sorted d.1 in
  let count := Z.of_nat (length s) in
  let avg := if count =? 0 then 0%Q else round2 (Py.sum s / inject_Z count) in
  mn ← match s with [] => Ok 0%Q | _ => index s 0 end;
  mx ← match s with [] => Ok 0%Q | _ => index s (-1) end;
  p90 ← pct_field s 90;
  p95 ← pct_field s 95;
  p99 ← pct_field s 99;
  let errors := d.2 in
  let err_pct := error_pct_of count errors in
  mret (mkAggRow lab count avg mn mx p90 p95 p99 err_pct).

(** The entry of a label in [agg]: [agg[lab]]. *)
Fixpoint agg_get (lab : string) (agg : Agg) : option (list Q * Z) :=
  match agg with
  | [] => None
  | (l, d) :: agg' => if String.eqb l lab then Some d else agg_get lab agg'
  end.

(** The samples of a label among the fetched rows, and its failures. *)
Definition of_label (lab : string) (rows : list Sample) : list Sample :=
  List.filter (fun r => String.eqb (label r) lab) rows.

Definition errors_of (g : list Sample) : Z :=
  Z.of_nat (length (List.filter (fun r => success r =? 0) g)).

Definition extend (o : option (list Q * Z)) (g : list Sample)
  : option (list Q * Z) :=
  match g with
  | [] => o
  | _ => Some ((default ([], 0) o).1 ++ (response_time <$> g),
               (default ([], 0) o).2 + errors_of g)
  end.

(** The conditions of lines 93-105. *)
Definition aggregate_conds (label : option string) (start end_ : option Z)
  : list Sql.cond :=
  (match truthy_str label with
   | Some l => [Sql.LabelEq l]
   | None => []
   end) ++ time_conds start end_.

(** The rows before the final sort, one per entry of [agg]. *)
Definition build_rows (agg : Agg) : result (list AggRow) :=
  mapM (fun e => build_row e.1 e.2) agg.

(** [api_aggregate()], lines 87-140. *)
Definition api_aggregate (label : option string) (start end_ : option Z)
  : M (list AggRow) :=
  let conds := aggregate_conds label start end_ in
  rows ← run_query (Sql.select conds);
  let agg := build_agg rows in
  res ← lift (build_rows agg);
  mret (sorted_desc agg_count res).

End Notreqired.

(** ** The aggregate and error-rate endpoints of [server.py] *)

Module Server.

Import Dashboard.

(** The dict of one row, lines 126-137. *)
Record AggRow : Type := mkAggRow {
  agg_label : string;
  agg_samples : Z;
  agg_success_count : Z;
  agg_error_count : Z;
  agg_avg_rt : Q;
  agg_min_rt : Q;
  agg_max_rt : Q;
  agg_total_time : Q;
  agg_error_pct : Q
}.

(** [api_aggregate()], lines 87-139.  Line 109, [cur = db.cursor()], reads
    the global [db]; [server.py] binds that name nowhere (no assignment, no
    import, no parameter), so the lookup raises [NameError] on every
    request, after the clauses are built and before any statement runs.
    Lines 110-138 are never reached. *)
Definition api_aggregate (start end_ duration : option Z) : M (list AggRow) :=
  now ← time_time;
  let end_ := match truthy_int duration with Some _ => Some now | None => end_ end in
  let start := match truthy_int duration with Some d => Some (now - d) | None => start end in
  let where_clauses := time_conds start end_ in
  lift (Raise NameError).

(** The window of [api_errorpct()], lines 284-289: [(start, end)]. *)
Definition errorpct_range (window start end_ : option Z) (now : Z) : Z * Z :=
  match truthy_int window with
  | Some window =>
      let end_ := or_else end_ now in
      (end_ - window + 1, end_)
  | None =>
      let end_ := or_else end_ now in
      (or_else start (end_ - 60 + 1), end_)
  end.

(** [api_errorpct()], lines 268-315: [(timestamps, error_pct)]. *)
Definition api_errorpct (window start end_ : option Z) (label : option string)
  : M (list Z * list Q) :=
  now ← time_time;
  let '(start, end_) := errorpct_range window start end_ now in
  let by_label := match truthy_str label with
                  | Some l => [Sql.LabelEq l]
                  | None => []
                  end in
  total_rows ← run_query (fun t =>
      (fun g => (g.1, Sql.count g.2))
        <$> Sql.group_by_timestamp
              (Sql.select (Sql.TimestampBetween start end_ :: by_label) t));
  err_rows ← run_query (fun t =>
      (fun g => (g.1, Sql.count g.2))
        <$> Sql.group_by_timestamp
              (Sql.select (Sql.TimestampBetween start end_ :: Sql.SuccessEq 0 :: by_label) t));
  let total_map := dict_of_rows total_rows in
  let err_map := dict_of_rows err_rows in
  let timestamps := range start (end_ + 1) in
  mret (timestamps,
        (fun sec =>
           let tot := default 0 (total_map !! sec) in
           let err := default 0 (err_map !! sec) in
           round2 (if tot =? 0 then 0 else inject_Z err / inject_Z tot * 100)%Q)
          <$> timestamps).

End Server.

(** ** The percentile calculator in double precision *)

Module Double.

(** A Python [float] is an IEEE 754 binary64 number; its operations round
    to nearest, ties to even, as the Standard Library's [SpecFloat]
    specifies them. *)
Definition double : Type := spec_float.

Definition prec : Z := 53.
Definition emax : Z := 1024.

Definition add : double -> double -> double := SFadd prec emax.
Definition sub : double -> double -> double := SFsub prec emax.
Definition mul : double -> double -> double := SFmul prec emax.
Definition div : double -> double -> double := SFdiv prec emax.
Definition leb : double -> double -> bool := SFleb.

(** The double nearest to an integer. *)
Definition of_Z (z : Z) : double := binary_normalize prec emax z 0 false.

(** [float(z)], the conversion of an [int] operand: [OverflowError] where
    the nearest double would be an infinity. *)
Definition of_int (z : Z) : result double :=
  match of_Z z with
  | S754_infinity _ => Raise OverflowError
  | x => Ok x
  end.

(** The literal [100.0]. *)
Definition hundred : double := S754_finite false 7036874417766400 (-46).

Definition signed (s : bool) (m : positive) : Z :=
  if s then Z.neg m else Z.pos m.

(** [math.floor(x)], an [int]. *)
Definition floor (x : double) : result Z :=
  match x with
  | S754_zero _ => Ok 0
  | S754_finite s m e =>
      Ok (if 0 <=? e then signed s m * 2 ^ e else signed s m / 2 ^ (- e))
  | S754_infinity _ => Raise OverflowError
  | S754_nan => Raise ValueError
  end.

(** [math.ceil(x)], an [int]. *)
Definition ceil (x : double) : result Z :=
  match x with
  | S754_zero _ => Ok 0
  | S754_finite s m e =>
      Ok (if 0 <=? e then signed s m * 2 ^ e else - (- signed s m / 2 ^ (- e)))
  | S754_infinity _ => Raise OverflowError
  | S754_nan => Raise ValueError
  end.

(** [int(x)]: truncation towards zero. *)
Definition int (x : double) : result Z :=
  match x with
  | S754_zero _ => Ok 0
  | S754_finite s m e =>
      Ok (if 0 <=? e then signed s m * 2 ^ e else signed s m ÷ 2 ^ (- e))
  | S754_infinity _ => Raise OverflowError
  | S754_nan => Raise ValueError
  end.

(** [percentile(sorted_list, pct)], lines 73-83 of both files.  An [int]
    operand of a mixed operation, [len(sorted_list)-1], [c] and [f], is
    converted to a double first; [pct] is the double of the argument. *)
Definition percentile (sorted_list : list double) (pct : double)
  : result (option double) :=
  match sorted_list with
  | [] => Ok None
  | _ :: _ =>
      n ← of_int (Z.of_nat (length sorted_list) - 1);
      let k := mul n (div pct hundred) in
      f ← floor k;
      c ← ceil k;
      if f =? c then
        i ← int k;
        x ← index sorted_list i;
        mret (Some x)
      else
        x0 ← index sorted_list f;
        c' ← of_int c;
        let d0 := mul x0 (sub c' k) in
        x1 ← index sorted_list c;
        f' ← of_int f;
        let d1 := mul x1 (sub k f') in
        mret (Some (add d0 d1))
  end.

(** Ascending order as a test: every element is at most its successor. *)
Fixpoint is_sorted (l : list double) : bool :=
  match l with
  | [] => true
  | x :: l' =>
      match l' with
      | [] => true
      | y :: _ => leb x y && is_sorted l'
      end
  end.

End Double.

(** ** The dashboard page *)

Module Page.

Import Dashboard.

(** [sorted(l)] on strings: a stable ascending sort, strings compared
    character by character. *)
Fixpoint insert_str (t : string) (l : list string) : list string :=
  match l with
  | [] => [t]
  | u :: l' => if String.leb t u then t :: l else u :: insert_str t l'
  end.

Definition sorted_str (l : list string) : list string := foldr insert_str [] l.

(** [dashboard()], lines 361-364 of [server.py] and 312-316 of
    [notreqired.py]: the [labels] handed to the template.
    [SELECT DISTINCT label] fetches every stored label once; SQL leaves the
    order of the fetched rows open, here the order of first appearance. *)
Definition dashboard_labels : M (list string) :=
  rows ← run_query (fun t => Sql.distinct (label <$> t));
  mret (sorted_str rows).

End Page.

(** ** Vocabulary of the further properties *)

(** The sum of a list of counts. *)
Definition total (l : list Z) : Z := foldr Z.add 0 l.

(** The worlds the service can be in: the table [init_db()] creates is
    empty, the clock moves forward between requests, and the table changes
    only by a request to the ingest endpoint. *)
Inductive reachable : World -> Prop :=
  | reachable_init (now : Z) : reachable (mkWorld [] now)
  | reachable_tick (w : World) (now : Z) :
      reachable w -> clock w <= now -> reachable (mkWorld (table w) now)
  | reachable_post (w : World) (data : Py.json) :
      reachable w -> reachable (Dashboard.receive_metrics data w).2.

(** ** Proof automation *)



(** ** Facts about the runtime fragments *)

Section PyFacts.

Local Open Scope Q_scope.

Lemma index_in_range {A} (l : list A) (i : Z) :
  (0 <= i < Z.of_nat (length l))%Z ->
  exists x, l !! Z.to_nat i = Some x /\ index l i = Ok x.
Proof.
  intros Hi. unfold index.
  destruct (Z.ltb_spec i 0) as [Hneg|_]; [lia|].
  destruct (Z.leb_spec 0 i) as [_|Hneg]; [|lia].
  destruct (Z.ltb_spec i (Z.of_nat (length l))) as [_|Hge]; [|lia].
  destruct (lookup_lt_is_Some_2 l (Z.to_nat i)) as [x Hx]; [lia|].
  exists x. rewrite Hx. auto.
Qed.

Lemma is_sorted_cons (x : Q) (l : list Q) :
  is_sorted (x :: l) = true ->
  is_sorted l = true /\ forall y, y ∈ l -> x <= y.
Proof.
  revert x. induction l as [|y l IH]; intros x Hs.
  - split; [reflexivity|]. intros y Hy. inversion Hy.
  - change (Qle_bool x y && is_sorted (y :: l) = true) in Hs.
    apply andb_true_iff in Hs as [Hxy Hl].
    apply Qle_bool_iff in Hxy.
    split; [exact Hl|]. intros z Hz.
    apply elem_of_cons in Hz as [->|Hz]; [exact Hxy|].
    apply Qle_trans with y; [exact Hxy|].
    apply (IH y Hl); exact Hz.
Qed.

(** In an ascending list the element at a smaller index is the smaller. *)
Lemma is_sorted_lookup (l : list Q) (i j : nat) (x y : Q) :
  is_sorted l = true -> (i <= j)%nat ->
  l !! i = Some x -> l !! j = Some y -> x <= y.
Proof.
  revert i j. induction l as [|a l IH]; intros i j Hs Hij Hi Hj.
  - discriminate.
  - apply is_sorted_cons in Hs as [Hl Ha].
    destruct i as [|i], j as [|j]; simpl in Hi, Hj.
    + injection Hi as <-. injection Hj as <-. apply Qle_refl.
    + injection Hi as <-. apply Ha. eapply list_elem_of_lookup_2; eauto.
    + lia.
    + apply (IH i j); auto. lia.
Qed.

Lemma foldl_min_step (l : list Q) (m : Q) :
  let r := foldl min_step m l in
  (r = m \/ r ∈ l) /\ r <= m /\ forall y, y ∈ l -> r <= y.
Proof.
  revert m. induction l as [|a l IH]; intros m; simpl.
  - split; [auto|]. split; [apply Qle_refl|]. intros y Hy. inversion Hy.
  - destruct (IH (min_step m a)) as (Hin & Hle & Hall).
    assert (Hstep : min_step m a <= m /\ min_step m a <= a
                    /\ (min_step m a = m \/ min_step m a = a)).
    { unfold min_step. destruct (Qlt_le_dec a m) as [Hlt|Hge].
      - split; [apply Qlt_le_weak; exact Hlt|]. split; [apply Qle_refl|auto].
      - split; [apply Qle_refl|]. split; [exact Hge|auto]. }
    destruct Hstep as (Hm & Ha & Hwhich).
    split; [|split].
    + destruct Hin as [->|Hin].
      * destruct Hwhich as [->| ->]; [auto|right; left].
      * right; right; exact Hin.
    + eapply Qle_trans; eauto.
    + intros y Hy. apply elem_of_cons in Hy as [->|Hy].
      * eapply Qle_trans; eauto.
      * apply Hall; exact Hy.
Qed.

Lemma foldl_max_step (l : list Q) (m : Q) :
  let r := foldl max_step m l in
  (r = m \/ r ∈ l) /\ m <= r /\ forall y, y ∈ l -> y <= r.
Proof.
  revert m. induction l as [|a l IH]; intros m; simpl.
  - split; [auto|]. split; [apply Qle_refl|]. intros y Hy. inversion Hy.
  - destruct (IH (max_step m a)) as (Hin & Hle & Hall).
    assert (Hstep : m <= max_step m a /\ a <= max_step m a
                    /\ (max_step m a = m \/ max_step m a = a)).
    { unfold max_step. destruct (Qlt_le_dec m a) as [Hlt|Hge].
      - split; [apply Qlt_le_weak; exact Hlt|]. split; [apply Qle_refl|auto].
      - split; [apply Qle_refl|]. split; [exact Hge|auto]. }
    destruct Hstep as (Hm & Ha & Hwhich).
    split; [|split].
    + destruct Hin as [->|Hin].
      * destruct Hwhich as [->| ->]; [auto|right; left].
      * right; right; exact Hin.
    + eapply Qle_trans; eauto.
    + intros y Hy. apply elem_of_cons in Hy as [->|Hy].
      * eapply Qle_trans; eauto.
      * apply Hall; exact Hy.
Qed.

Lemma min_spec (l : list Q) :
  l <> [] -> Py.min l ∈ l /\ forall y, y ∈ l -> Py.min l <= y.
Proof.
  destruct l as [|x l]; [congruence|]. intros _.
  destruct (foldl_min_step l x) as (Hin & Hle & Hall).
  change (Py.min (x :: l)) with (foldl min_step x l).
  split.
  - destruct Hin as [->|Hin]; [left|right; exact Hin].
  - intros y Hy. apply elem_of_cons in Hy as [->|Hy]; auto.
Qed.

Lemma max_spec (l : list Q) :
  l <> [] -> Py.max l ∈ l /\ forall y, y ∈ l -> y <= Py.max l.
Proof.
  destruct l as [|x l]; [congruence|]. intros _.
  destruct (foldl_max_step l x) as (Hin & Hle & Hall).
  change (Py.max (x :: l)) with (foldl max_step x l).
  split.
  - destruct Hin as [->|Hin]; [left|right; exact Hin].
  - intros y Hy. apply elem_of_cons in Hy as [->|Hy]; auto.
Qed.

End PyFacts.

(** ** The percentile calculator *)

Section Percentile.

Import Dashboard.
Local Open Scope Q_scope.

(** The rank [k = (n-1) * (pct/100)] stays within [0, n-1]. *)
Lemma rank_bounds (n : Z) (p : Q) :
  (1 <= n)%Z -> 0 <= p -> p <= 100 ->
  let k := inject_Z (n - 1) * (p / 100) in
  0 <= k /\ k <= inject_Z (n - 1).
Proof.
  intros Hn Hp0 Hp1 k.
  assert (Hm : 0 <= inject_Z (n - 1)).
  { change 0 with (inject_Z 0). rewrite <- Zle_Qle. lia. }
  assert (Hq0 : 0 <= p / 100).
  { apply Qle_shift_div_l; [reflexivity|]. rewrite Qmult_0_l. exact Hp0. }
  assert (Hq1 : p / 100 <= 1).
  { apply Qle_shift_div_r; [reflexivity|]. rewrite Qmult_1_l. exact Hp1. }
  split.
  - apply Qmult_le_0_compat; assumption.
  - unfold k. rewrite <- (Qmult_1_r (inject_Z (n - 1))) at 2.
    rewrite !(Qmult_comm (inject_Z (n - 1))).
    apply Qmult_le_compat_r; assumption.
Qed.

Lemma floor_ceiling_range (k : Q) (m : Z) :
  0 <= k -> k <= inject_Z m ->
  (0 <= Qfloor k)%Z /\ (Qfloor k <= Qceiling k)%Z /\ (Qceiling k <= m)%Z
  /\ (Qceiling k <= Qfloor k + 1)%Z.
Proof.
  intros H0 Hm.
  assert (Hf : (0 <= Qfloor k)%Z).
  { change 0%Z with (Qfloor 0). apply Qfloor_resp_le. exact H0. }
  assert (Hc : (Qceiling k <= m)%Z).
  { rewrite <- (Qceiling_Z m). apply Qceiling_resp_le. exact Hm. }
  assert (Hfc : (Qfloor k <= Qceiling k)%Z).
  { rewrite Zle_Qle. apply Qle_floor_ceiling. }
  assert (Hc1 : (Qceiling k <= Qfloor k + 1)%Z).
  { assert (Hlt : inject_Z (Qceiling k - 1) < inject_Z (Qfloor k + 1)).
    { eapply Qlt_trans; [apply Qceiling_lt | apply Qlt_floor]. }
    rewrite <- Zlt_Qlt in Hlt. lia. }
  auto.
Qed.

End Percentile.

Section PercentileSpec.

Import Dashboard.
Local Open Scope Q_scope.

(** On a non-empty list and a percentile within [0,100] both ranks are valid
    indices, so the calculator returns a number. *)
Lemma percentile_defined (S : list Q) (p : Q) :
  S <> [] -> 0 <= p -> p <= 100 ->
  let k := inject_Z (Z.of_nat (length S) - 1) * (p / 100) in
  exists a b,
    S !! Z.to_nat (Qfloor k) = Some a /\ S !! Z.to_nat (Qceiling k) = Some b /\
    percentile S p =
      Ok (Some (if (Qfloor k =? Qceiling k)%Z then a
                else a * (inject_Z (Qceiling k) - k) + b * (k - inject_Z (Qfloor k)))).
Proof.
  intros Hne Hp0 Hp1 k.
  assert (Hn : (1 <= Z.of_nat (length S))%Z).
  { destruct S; [congruence|]. simpl. lia. }
  destruct (rank_bounds _ p Hn Hp0 Hp1) as [Hk0 Hk1]. fold k in Hk0, Hk1.
  destruct (floor_ceiling_range k _ Hk0 Hk1) as (Hf & Hfc & Hc & _).
  destruct (index_in_range S (Qfloor k)) as (a & Ha & Hia); [lia|].
  destruct (index_in_range S (Qceiling k)) as (b & Hb & Hib); [lia|].
  exists a, b. split; [exact Ha|]. split; [exact Hb|].
  unfold percentile. destruct S as [|s0 S']; [congruence|].
  fold k. cbv zeta.
  destruct (Qfloor k =? Qceiling k)%Z eqn:E.
  - unfold int_of_float.
    assert (Hb0 : Qle_bool 0 k = true) by (apply Qle_bool_iff; exact Hk0).
    rewrite Hb0. rewrite Hia. reflexivity.
  - rewrite Hia. simpl. rewrite Hib. reflexivity.
Qed.

Lemma sorted_first_le (S : list Q) (x0 y : Q) :
  is_sorted S = true -> head S = Some x0 -> y ∈ S -> x0 <= y.
Proof.
  intros Hs H0 Hy. apply list_elem_of_lookup_1 in Hy as [i Hi].
  rewrite head_lookup in H0.
  apply (is_sorted_lookup S 0 i); auto. lia.
Qed.

Lemma sorted_le_last (S : list Q) (xl y : Q) :
  is_sorted S = true -> last S = Some xl -> y ∈ S -> y <= xl.
Proof.
  intros Hs Hl Hy. apply list_elem_of_lookup_1 in Hy as [i Hi].
  rewrite last_lookup in Hl.
  apply (is_sorted_lookup S i (Nat.pred (length S))); auto.
  apply lookup_lt_Some in Hi. lia.
Qed.

End PercentileSpec.

(** ** The time-series builder *)

Section TimeSeries.

Import Dashboard.

Lemma range_length (start stop : Z) :
  length (range start stop) = Z.to_nat (stop - start).
Proof. unfold range. rewrite length_fmap, length_seq. reflexivity. Qed.

Lemma range_lookup (start stop sec : Z) :
  start <= sec < stop -> range start stop !! Z.to_nat (sec - start) = Some sec.
Proof.
  intros H. unfold range. rewrite list_lookup_fmap.
  rewrite lookup_seq_lt by lia. simpl. f_equal. lia.
Qed.

Lemma range_empty (start stop : Z) : stop <= start -> range start stop = [].
Proof.
  intros H. unfold range.
  replace (Z.to_nat (stop - start)) with 0%nat by lia. reflexivity.
Qed.

Lemma fill_length {V} (zero : V) (m : gmap Z V) (start end_ : Z) :
  length (fill zero m start end_).1 = Z.to_nat (end_ - start + 1)
  /\ length (fill zero m start end_).2 = Z.to_nat (end_ - start + 1).
Proof.
  unfold fill. simpl. rewrite length_fmap, range_length.
  split; f_equal; lia.
Qed.

Lemma fill_lookup {V} (zero : V) (m : gmap Z V) (start end_ sec : Z) :
  start <= sec <= end_ ->
  (fill zero m start end_).1 !! Z.to_nat (sec - start) = Some sec
  /\ (fill zero m start end_).2 !! Z.to_nat (sec - start)
     = Some (default zero (m !! sec)).
Proof.
  intros H. unfold fill. simpl. rewrite list_lookup_fmap.
  rewrite range_lookup by lia. auto.
Qed.

Lemma fill_empty {V} (zero : V) (m : gmap Z V) (start end_ : Z) :
  end_ < start -> fill zero m start end_ = ([], []).
Proof.
  intros H. unfold fill. rewrite range_empty by lia. reflexivity.
Qed.

(** Rows with other keys leave a key of the dict as it was. *)
Lemma foldl_insert_absent {V} (rows : list (Z * V)) (k : Z) (m : gmap Z V) :
  k ∉ rows.*1 -> foldl (fun m r => <[r.1 := r.2]> m) m rows !! k = m !! k.
Proof.
  revert m. induction rows as [|r rows IH]; intros m Hk; simpl; [reflexivity|].
  simpl in Hk. apply not_elem_of_cons in Hk as [Hne Hk].
  rewrite IH by exact Hk. apply lookup_insert_ne. auto.
Qed.

(** A key absent from the fetched rows is absent from the dict. *)
Lemma dict_of_rows_absent {V} (rows : list (Z * V)) (k : Z) :
  k ∉ rows.*1 -> dict_of_rows rows !! k = None.
Proof.
  intros Hk. unfold dict_of_rows. rewrite foldl_insert_absent by exact Hk.
  apply lookup_empty.
Qed.

(** When the value of a row is a function of its key, the dict holds that
    value under every fetched key. *)
Lemma dict_of_rows_present {V} (F : Z -> V) (keys : list Z) (k : Z) :
  k ∈ keys -> dict_of_rows ((fun t => (t, F t)) <$> keys) !! k = Some (F k).
Proof.
  unfold dict_of_rows. generalize (∅ : gmap Z V).
  induction keys as [|t keys IH]; intros m Hk; [inversion Hk|].
  rewrite fmap_cons. cbn [foldl fst snd].
  destruct (decide (k ∈ keys)) as [Hin|Hout]; [apply IH; exact Hin|].
  apply elem_of_cons in Hk as [->|Hk]; [|contradiction].
  rewrite foldl_insert_absent.
  - apply lookup_insert_eq.
  - rewrite <- list_fmap_compose.
    rewrite (list_fmap_ext _ id keys) by (intros; reflexivity).
    rewrite list_fmap_id. exact Hout.
Qed.

Lemma elem_of_insert_key (x t : Z) (l : list Z) :
  x ∈ Sql.insert_key t l <-> x = t \/ x ∈ l.
Proof.
  induction l as [|u l IH]; simpl.
  - rewrite list_elem_of_singleton. split; [auto|].
    intros [E|E]; [exact E | inversion E].
  - destruct (Z.ltb_spec t u); [apply elem_of_cons|].
    destruct (Z.eqb_spec t u) as [->|Hne].
    + rewrite elem_of_cons. tauto.
    + rewrite !elem_of_cons, IH. tauto.
Qed.

Lemma elem_of_distinct_timestamps (x : Z) (rows : list Sample) :
  x ∈ Sql.distinct_timestamps rows <-> exists s, s ∈ rows /\ timestamp s = x.
Proof.
  induction rows as [|r rows IH]; simpl.
  - split; [intros H; inversion H | intros (s & H & _); inversion H].
  - rewrite elem_of_insert_key, IH. split.
    + intros [->|(s & Hs & E)]; [exists r; split; [left|reflexivity]|].
      exists s. split; [right; exact Hs | exact E].
    + intros (s & Hs & E). apply elem_of_cons in Hs as [->|Hs]; [left; auto|].
      right. exists s. auto.
Qed.

Lemma elem_of_select (s : Sample) (conds : list Sql.cond) (t : list Sample) :
  s ∈ Sql.select conds t <->
  s ∈ t /\ forallb (fun c => Sql.holds c s) conds = true.
Proof.
  unfold Sql.select. rewrite !list_elem_of_In, filter_In. reflexivity.
Qed.

Lemma fmap_fst_keep {A B C} (f : B -> C) (rows : list (A * B)) :
  ((fun r => (r.1, f r.2)) <$> rows).*1 = rows.*1.
Proof. rewrite <- list_fmap_compose. apply list_fmap_ext. auto. Qed.

Lemma group_by_timestamp_keys (rows : list Sample) :
  (Sql.group_by_timestamp rows).*1 = Sql.distinct_timestamps rows.
Proof.
  unfold Sql.group_by_timestamp. rewrite <- list_fmap_compose.
  rewrite <- (list_fmap_id (Sql.distinct_timestamps rows)) at 2.
  apply list_fmap_ext. auto.
Qed.

(** A second without a stored sample has no group. *)
Lemma group_keys_absent (conds : list Sql.cond) (t : list Sample) (sec : Z) :
  (forall s, s ∈ t -> timestamp s <> sec) ->
  sec ∉ (Sql.group_by_timestamp (Sql.select conds t)).*1.
Proof.
  intros Hno Hin. rewrite group_by_timestamp_keys in Hin.
  apply elem_of_distinct_timestamps in Hin as (s & Hs & E).
  apply elem_of_select in Hs as [Hs _]. exact (Hno s Hs E).
Qed.

Lemma api_tps_run (window end_ : option Z) (w : World) :
  let e := or_else end_ (clock w) in
  let s := e - default 60 window + 1 in
  api_tps window end_ w = (Ok (fill 0 (dict_of_rows (tps_rows s e (table w))) s e), w).
Proof. reflexivity. Qed.

Lemma api_threads_run (window end_ : option Z) (w : World) :
  let e := or_else end_ (clock w) in
  let s := e - default 60 window + 1 in
  api_threads window end_ w
  = (Ok (fill 0%Q (dict_of_rows ((fun r => (r.1, round2 r.2))
                                    <$> threads_rows s e (table w))) s e), w).
Proof. reflexivity. Qed.

Lemma tps_rows_absent (start end_ sec : Z) (t : list Sample) :
  (forall s, s ∈ t -> timestamp s <> sec) ->
  dict_of_rows (tps_rows start end_ t) !! sec = None.
Proof.
  intros Hno. apply dict_of_rows_absent. unfold tps_rows.
  rewrite fmap_fst_keep. apply group_keys_absent. exact Hno.
Qed.

Lemma threads_rows_absent (start end_ sec : Z) (t : list Sample) :
  (forall s, s ∈ t -> timestamp s <> sec) ->
  dict_of_rows ((fun r => (r.1, round2 r.2)) <$> threads_rows start end_ t) !! sec
  = None.
Proof.
  intros Hno. apply dict_of_rows_absent. unfold threads_rows.
  rewrite !fmap_fst_keep. apply group_keys_absent. exact Hno.
Qed.

Lemma filter_filter_implied {A} (p q : A -> bool) (l : list A) :
  (forall x, p x = true -> q x = true) ->
  List.filter p (List.filter q l) = List.filter p l.
Proof.
  intros Himp. induction l as [|x l IH]; [reflexivity|]. simpl.
  destruct (q x) eqn:Eq; destruct (p x) eqn:Ep; simpl; rewrite ?Ep, ?IH;
    try reflexivity.
  apply Himp in Ep. congruence.
Qed.

Lemma filter_second_select (start end_ sec : Z) (t : list Sample) :
  start <= sec <= end_ ->
  List.filter (fun x => timestamp x =? sec)
              (Sql.select [Sql.TimestampBetween start end_] t)
  = List.filter (fun x => timestamp x =? sec) t.
Proof.
  intros Hsec. unfold Sql.select. apply filter_filter_implied.
  intros x Hx. apply Z.eqb_eq in Hx. simpl. rewrite andb_true_r.
  apply andb_true_iff. split; apply Z.leb_le; lia.
Qed.

(** Throughput buckets by exact second: inside the window the entry of a
    second is the number of stored samples with that timestamp. *)
Lemma tps_counts_samples (window end_ : option Z) (w : World) (sec : Z) :
  let e := or_else end_ (clock w) in
  let s := e - default 60 window + 1 in
  s <= sec <= e ->
  exists timestamps tps,
    (api_tps window end_ w).1 = Ok (timestamps, tps)
    /\ tps !! Z.to_nat (sec - s)
       = Some (Z.of_nat (length (List.filter (fun x => timestamp x =? sec) (table w)))).
Proof.
  intros e s Hsec. rewrite api_tps_run. fold e s.
  exists (fill 0 (dict_of_rows (tps_rows s e (table w))) s e).1,
         (fill 0 (dict_of_rows (tps_rows s e (table w))) s e).2.
  split; [reflexivity|].
  destruct (fill_lookup 0 (dict_of_rows (tps_rows s e (table w))) s e sec Hsec)
    as [_ ->].
  f_equal. rewrite <- (filter_second_select s e sec (table w) Hsec).
  set (sel := Sql.select [Sql.TimestampBetween s e] (table w)).
  assert (Erows : tps_rows s e (table w)
                  = (fun t => (t, Sql.count (List.filter (fun x => timestamp x =? t) sel)))
                      <$> Sql.distinct_timestamps sel).
  { unfold tps_rows, Sql.group_by_timestamp. fold sel.
    rewrite <- list_fmap_compose. reflexivity. }
  rewrite Erows.
  destruct (decide (sec ∈ Sql.distinct_timestamps sel)) as [Hin|Hout].
  - rewrite (dict_of_rows_present
               (fun t => Sql.count (List.filter (fun x => timestamp x =? t) sel)))
      by exact Hin.
    reflexivity.
  - rewrite dict_of_rows_absent.
    + simpl. destruct (List.filter (fun x => timestamp x =? sec) sel) as [|x g] eqn:E;
        [reflexivity|].
      exfalso. apply Hout. apply elem_of_distinct_timestamps. exists x.
      assert (Hx : In x (List.filter (fun x => timestamp x =? sec) sel))
        by (rewrite E; left; reflexivity).
      apply filter_In in Hx as [Hx Ht]. split; [apply list_elem_of_In; exact Hx|].
      apply Z.eqb_eq. exact Ht.
    + rewrite <- list_fmap_compose.
      rewrite (list_fmap_ext _ id (Sql.distinct_timestamps sel))
        by (intros; reflexivity).
      rewrite list_fmap_id. exact Hout.
Qed.

(** C2. For a window [start <= end] the series of [api_tps] and of
    [api_threads] have exactly [end - start + 1] entries whatever the table
    holds; every second of the window appears at its place, and a second
    without a stored sample carries the value 0. *)
Theorem series_covers_window (window end_ : option Z) (w : World) :
  let e := or_else end_ (clock w) in
  let s := e - default 60 window + 1 in
  s <= e ->
  exists (timestamps tps : list Z) (threads : list Q),
    (api_tps window end_ w).1 = Ok (timestamps, tps)
    /\ (api_threads window end_ w).1 = Ok (timestamps, threads)
    /\ length timestamps = Z.to_nat (e - s + 1)
    /\ length tps = Z.to_nat (e - s + 1)
    /\ length threads = Z.to_nat (e - s + 1)
    /\ (forall sec, s <= sec <= e -> timestamps !! Z.to_nat (sec - s) = Some sec)
    /\ (forall sec, s <= sec <= e ->
          (forall x, x ∈ table w -> timestamp x <> sec) ->
          tps !! Z.to_nat (sec - s) = Some 0
          /\ threads !! Z.to_nat (sec - s) = Some 0%Q).
Proof.
  intros e s Hse.
  rewrite api_tps_run, api_threads_run. fold e s.
  set (m1 := dict_of_rows (tps_rows s e (table w))).
  set (m2 := dict_of_rows ((fun r => (r.1, round2 r.2)) <$> threads_rows s e (table w))).
  exists (fill 0 m1 s e).1, (fill 0 m1 s e).2, (fill 0%Q m2 s e).2.
  split; [reflexivity|]. split; [reflexivity|].
  destruct (fill_length 0 m1 s e) as [L1 L2].
  destruct (fill_length 0%Q m2 s e) as [_ L3].
  split; [exact L1|]. split; [exact L2|]. split; [exact L3|]. split.
  - intros sec Hsec. apply (fill_lookup 0 m1 s e sec Hsec).
  - intros sec Hsec Hno.
    destruct (fill_lookup 0 m1 s e sec Hsec) as [_ V1].
    destruct (fill_lookup 0%Q m2 s e sec Hsec) as [_ V2].
    rewrite V1, V2. unfold m1, m2.
    rewrite tps_rows_absent, threads_rows_absent by exact Hno.
    split; reflexivity.
Qed.

(** The spec's scenario: samples at seconds [T] and [T+2] only. *)
Lemma series_covers_window_witness :
  exists (timestamps tps : list Z) (threads : list Q),
    (api_tps (Some 3) None
       (mkWorld [mkSample 1000 "Pay" 10 1 1 "200" "";
                 mkSample 1002 "Pay" 12 1 3 "200" ""] 1002)).1
    = Ok (timestamps, tps)
    /\ (api_threads (Some 3) None
          (mkWorld [mkSample 1000 "Pay" 10 1 1 "200" "";
                    mkSample 1002 "Pay" 12 1 3 "200" ""] 1002)).1
       = Ok (timestamps, threads)
    /\ length timestamps = 3%nat
    /\ length tps = 3%nat
    /\ length threads = 3%nat
    /\ (forall sec, 1000 <= sec <= 1002 ->
          timestamps !! Z.to_nat (sec - 1000) = Some sec)
    /\ (forall sec, 1000 <= sec <= 1002 ->
          (forall x,
             x ∈ [mkSample 1000 "Pay" 10 1 1 "200" "";
                  mkSample 1002 "Pay" 12 1 3 "200" ""] ->
             timestamp x <> sec) ->
          tps !! Z.to_nat (sec - 1000) = Some 0
          /\ threads !! Z.to_nat (sec - 1000) = Some 0%Q).
Proof.
  apply (series_covers_window (Some 3) None
           (mkWorld [mkSample 1000 "Pay" 10 1 1 "200" "";
                     mkSample 1002 "Pay" 12 1 3 "200" ""] 1002)).
  vm_compute. discriminate.
Defined.

Example tps_pay_scenario :
  (api_tps (Some 3) None
     (mkWorld [mkSample 1000 "Pay" 10 1 1 "200" "";
               mkSample 1002 "Pay" 12 1 3 "200" ""] 1002)).1
  = Ok ([1000; 1001; 1002], [1; 0; 1]).
Proof. reflexivity. Qed.

Example tps_empty_store :
  (api_tps (Some 6) (Some 1005) (mkWorld [] 2000)).1
  = Ok ([1000; 1001; 1002; 1003; 1004; 1005], [0; 0; 0; 0; 0; 0]).
Proof. reflexivity. Qed.

Lemma truthy_int_nonzero (a : option Z) (z : Z) :
  truthy_int a = Some z -> a = Some z /\ z <> 0.
Proof.
  unfold truthy_int. destruct a as [y|]; [|discriminate].
  destruct (Z.eqb_spec y 0); [discriminate|].
  intros E. injection E as <-. auto.
Qed.

Lemma api_errorpct_run (window start end_ : option Z) (label : option string)
    (w : World) :
  exists values,
    Server.api_errorpct window start end_ label w
    = (Ok (range (Server.errorpct_range window start end_ (clock w)).1
                 ((Server.errorpct_range window start end_ (clock w)).2 + 1),
           values <$> range (Server.errorpct_range window start end_ (clock w)).1
                            ((Server.errorpct_range window start end_ (clock w)).2 + 1)),
       w).
Proof.
  unfold Server.api_errorpct.
  destruct (Server.errorpct_range window start end_ (clock w)) as [s e] eqn:E.
  eexists. unfold mbind, M_bind, bind, time_time. rewrite E. simpl. reflexivity.
Qed.

(** C8 (amended).  Whenever the window has [start > end] the series of
    [api_tps], [api_threads] and [api_errorpct] is empty, not an error.  For
    [api_tps] and [api_threads] that is exactly when [window <= 0].  For
    [api_errorpct] it is when [window < 0], or when [window] is absent or 0
    and a non-zero [start] exceeds [end]: a zero [window] is read as absent
    there and falls back to the last 60 seconds. *)
Theorem start_after_end_gives_empty_series
    (window start end_ : option Z) (label : option string) (w : World) :
  let e := or_else end_ (clock w) in
  let s := e - default 60 window + 1 in
  let r := Server.errorpct_range window start end_ (clock w) in
  (e < s ->
     (api_tps window end_ w).1 = Ok ([], [])
     /\ (api_threads window end_ w).1 = Ok ([], []))
  /\ (r.2 < r.1 -> (Server.api_errorpct window start end_ label w).1 = Ok ([], []))
  /\ (e < s <-> default 60 window <= 0)
  /\ (forall z, truthy_int window = Some z -> (r.2 < r.1 <-> z < 0))
  /\ (truthy_int window = None ->
        (r.2 < r.1 <-> exists s0, truthy_int start = Some s0 /\ e < s0))
  /\ Server.errorpct_range (Some 0) start end_ (clock w)
     = Server.errorpct_range None start end_ (clock w).
Proof.
  intros e s r. split; [|split; [|split; [|split; [|split]]]].
  - intros Hlt. rewrite api_tps_run, api_threads_run. fold e s. simpl.
    rewrite !fill_empty by exact Hlt. auto.
  - intros Hlt.
    destruct (api_errorpct_run window start end_ label w) as [values ->].
    fold r. clearbody r. destruct r as [a b]. simpl in *.
    rewrite range_empty by lia. reflexivity.
  - unfold s. clear s r. clearbody e. generalize (default 60 window).
    intros d. lia.
  - intros z Hz. unfold r, Server.errorpct_range. rewrite Hz. simpl.
    fold e. apply truthy_int_nonzero in Hz. clear s r. clearbody e. lia.
  - intros Hw. unfold r, Server.errorpct_range. rewrite Hw. simpl. fold e.
    unfold or_else at 1. destruct (truthy_int start) as [s0|] eqn:Es.
    + split; [intros H; exists s0; auto|]. intros (s1 & E1 & H1).
      injection E1 as <-. exact H1.
    + split; [clear s r; clearbody e; lia|]. intros (s1 & E1 & _). discriminate.
  - reflexivity.
Qed.

Lemma start_after_end_gives_empty_series_witness :
  ((api_tps (Some 0) None (mkWorld [mkSample 1000 "Pay" 10 1 1 "200" ""] 1000)).1
     = Ok ([], [])
   /\ (api_threads (Some 0) None (mkWorld [mkSample 1000 "Pay" 10 1 1 "200" ""] 1000)).1
     = Ok ([], []))
  /\ (Server.api_errorpct (Some (-5)) None None None
        (mkWorld [mkSample 1000 "Pay" 10 1 1 "200" ""] 1000)).1 = Ok ([], []).
Proof.
  split.
  - apply (start_after_end_gives_empty_series (Some 0) None None None
             (mkWorld [mkSample 1000 "Pay" 10 1 1 "200" ""] 1000)).
    vm_compute. reflexivity.
  - apply (start_after_end_gives_empty_series (Some (-5)) None None None
             (mkWorld [mkSample 1000 "Pay" 10 1 1 "200" ""] 1000)).
    vm_compute. reflexivity.
Defined.

(** Counterexample to C8 as stated: at the error-rate endpoint a
    [window] of 0 gives the series of the 60 seconds up to the clock. *)
Lemma zero_window_errorpct_counterexample :
  exists timestamps values,
    (Server.api_errorpct (Some 0) None None None (mkWorld [] 1000)).1
    = Ok (timestamps, values)
    /\ length timestamps = 60%nat /\ length values = 60%nat
    /\ (timestamps, values) <> ([], []).
Proof.
  eexists. eexists. split; [reflexivity|].
  split; [reflexivity|]. split; [reflexivity|]. discriminate.
Qed.

End TimeSeries.

(** ** The aggregate engine of [notreqired.py] *)

Section Aggregate.

Import Dashboard Notreqired.

Lemma insert_asc_length (x : Q) (l : list Q) :
  length (insert_asc x l) = S (length l).
Proof.
  induction l as [|y l IH]; simpl; [reflexivity|].
  destruct (Qle_bool x y); simpl; [reflexivity|]. rewrite IH. reflexivity.
Qed.

Lemma sorted_length (l : list Q) : length (sorted l) = length l.
Proof.
  induction l as [|x l IH]; simpl; [reflexivity|].
  rewrite insert_asc_length, IH. reflexivity.
Qed.

Lemma index_first {A} (l : list A) :
  l <> [] -> exists x, head l = Some x /\ index l 0 = Ok x.
Proof.
  intros Hne. destruct (index_in_range l 0) as (x & Hx & Hi).
  { destruct l; [congruence|]. simpl. lia. }
  exists x. rewrite head_lookup. auto.
Qed.

Lemma index_last {A} (l : list A) :
  l <> [] -> exists x, last l = Some x /\ index l (-1) = Ok x.
Proof.
  intros Hne.
  assert (Hn : (0 < length l)%nat) by (destruct l; [congruence|simpl; lia]).
  destruct (lookup_lt_is_Some_2 l (Nat.pred (length l))) as [x Hx]; [lia|].
  exists x. rewrite last_lookup. split; [exact Hx|].
  unfold index. simpl.
  destruct (Z.leb_spec 0 (Z.of_nat (length l) + -1)); [|lia].
  destruct (Z.ltb_spec (Z.of_nat (length l) + -1) (Z.of_nat (length l))); [|lia].
  simpl.
  replace (Z.to_nat (Z.of_nat (length l) + -1)) with (Nat.pred (length l)) by lia.
  rewrite Hx. reflexivity.
Qed.

(** A percentile field never raises for a percentile within [0,100]; on a
    non-empty list it is the rounded answer of [percentile]. *)
Lemma pct_field_ok (s : list Q) (p : Q) :
  (0 <= p)%Q -> (p <= 100)%Q ->
  exists q, pct_field s p = Ok q /\ from_percentile s p q.
Proof.
  intros Hp0 Hp1. destruct s as [|x s]; [exists 0%Q; split; reflexivity|].
  destruct (percentile_defined (x :: s) p) as (a & b & _ & _ & Hperc);
    [discriminate | exact Hp0 | exact Hp1 |].
  unfold pct_field, from_percentile. rewrite Hperc.
  eexists. split; [reflexivity|]. eexists. split; reflexivity.
Qed.

Lemma build_row_ok (lab : string) (d : list Q * Z) :
  exists row,
    build_row lab d = Ok row
    /\ agg_label row = lab
    /\ agg_count row = Z.of_nat (length d.1)
    /\ agg_error_pct row = error_pct_of (Z.of_nat (length d.1)) d.2
    /\ from_percentile (sorted d.1) 90 (agg_pct90 row)
    /\ from_percentile (sorted d.1) 95 (agg_pct95 row)
    /\ from_percentile (sorted d.1) 99 (agg_pct99 row).
Proof.
  unfold build_row.
  assert (Hmn : exists mn, match sorted d.1 with
                           | [] => Ok 0%Q | _ => index (sorted d.1) 0 end = Ok mn).
  { destruct (sorted d.1) as [|x s] eqn:E; [eexists; reflexivity|].
    destruct (index_first (x :: s)) as (y & _ & Hy); [discriminate|].
    exists y. exact Hy. }
  assert (Hmx : exists mx, match sorted d.1 with
                           | [] => Ok 0%Q | _ => index (sorted d.1) (-1) end = Ok mx).
  { destruct (sorted d.1) as [|x s] eqn:E; [eexists; reflexivity|].
    destruct (index_last (x :: s)) as (y & _ & Hy); [discriminate|].
    exists y. exact Hy. }
  destruct Hmn as [mn ->]. destruct Hmx as [mx ->].
  destruct (pct_field_ok (sorted d.1) 90) as (p90 & -> & H90); [easy | easy |].
  destruct (pct_field_ok (sorted d.1) 95) as (p95 & -> & H95); [easy | easy |].
  destruct (pct_field_ok (sorted d.1) 99) as (p99 & -> & H99); [easy | easy |].
  eexists. split; [reflexivity|]. simpl.
  rewrite sorted_length. auto 10.
Qed.

Lemma build_rows_ok (agg : Agg) :
  exists res,
    build_rows agg = Ok res
    /\ Forall2 (fun e r => build_row e.1 e.2 = Ok r) agg res.
Proof.
  induction agg as [|e agg IH].
  - exists []. split; [reflexivity | constructor].
  - destruct IH as (res & Hres & Hall).
    destruct (build_row_ok e.1 e.2) as (row & Hrow & _).
    exists (row :: res). split; [|constructor; assumption].
    unfold build_rows in *. simpl. rewrite Hrow. simpl.
    rewrite Hres. reflexivity.
Qed.

Lemma api_aggregate_run (label : option string) (start end_ : option Z)
    (w : World) :
  exists res,
    build_rows (build_agg (Sql.select (aggregate_conds label start end_) (table w)))
    = Ok res
    /\ api_aggregate label start end_ w = (Ok (sorted_desc agg_count res), w).
Proof.
  destruct (build_rows_ok
              (build_agg (Sql.select (aggregate_conds label start end_) (table w))))
    as (res & Hres & _).
  exists res. split; [exact Hres|].
  unfold api_aggregate, mbind, M_bind, bind, run_query, lift. simpl.
  rewrite Hres. reflexivity.
Qed.



(** C9. The aggregate answer depends on the table and on the
    [label]/[start]/[end] arguments only: two worlds with the same table
    (whatever their clocks) give the same rows in the same order, and the
    query leaves the table as it found it, so asking again gives the same
    answer. *)
Theorem aggregate_is_pure (label : option string) (start end_ : option Z)
    (w1 w2 : World) :
  table w1 = table w2 ->
  (api_aggregate label start end_ w1).1 = (api_aggregate label start end_ w2).1
  /\ (api_aggregate label start end_ w1).2 = w1
  /\ (api_aggregate label start end_ (api_aggregate label start end_ w1).2).1
     = (api_aggregate label start end_ w1).1.
Proof.
  intros Ht.
  destruct (api_aggregate_run label start end_ w1) as (r1 & H1 & E1).
  destruct (api_aggregate_run label start end_ w2) as (r2 & H2 & E2).
  rewrite Ht in H1. rewrite H1 in H2. injection H2 as <-.
  rewrite E1, E2. simpl. rewrite E1. auto.
Qed.

Lemma aggregate_is_pure_witness :
  (api_aggregate None (Some 1000) None
     (mkWorld [mkSample 1000 "Login" 100 1 5 "200" "";
               mkSample 1001 "Login" 300 0 5 "500" "boom"] 1001)).1
  = (api_aggregate None (Some 1000) None
       (mkWorld [mkSample 1000 "Login" 100 1 5 "200" "";
                 mkSample 1001 "Login" 300 0 5 "500" "boom"] 2000)).1.
Proof.
  apply (aggregate_is_pure None (Some 1000) None
           (mkWorld [mkSample 1000 "Login" 100 1 5 "200" "";
                     mkSample 1001 "Login" 300 0 5 "500" "boom"] 1001)
           (mkWorld [mkSample 1000 "Login" 100 1 5 "200" "";
                     mkSample 1001 "Login" 300 0 5 "500" "boom"] 2000)).
  reflexivity.
Defined.

Lemma time_conds_nonzero (start end_ : option Z) (c : Sql.cond) :
  c ∈ time_conds start end_ ->
  (exists a, c = Sql.TimestampGe a /\ a <> 0)
  \/ (exists b, c = Sql.TimestampLe b /\ b <> 0).
Proof.
  intros Hin. unfold time_conds in Hin. apply elem_of_app in Hin as [Hin|Hin].
  - destruct (truthy_int start) as [a|] eqn:Ea; [|inversion Hin].
    apply list_elem_of_singleton in Hin as ->. left. exists a.
    apply truthy_int_nonzero in Ea. tauto.
  - destruct (truthy_int end_) as [b|] eqn:Eb; [|inversion Hin].
    apply list_elem_of_singleton in Hin as ->. right. exists b.
    apply truthy_int_nonzero in Eb. tauto.
Qed.

(** By contrast the throughput series without [end] follows the clock. *)
Example tps_reads_clock :
  (api_tps (Some 2) None (mkWorld [] 1000)).1 = Ok ([999; 1000], [0; 0])
  /\ (api_tps (Some 2) None (mkWorld [] 2000)).1 = Ok ([1999; 2000], [0; 0]).
Proof. split; reflexivity. Qed.

(** C10. A bound equal to 0 is read as no bound: [api_aggregate],
    [api_errors] and [api_success] with [start=0] (or [end=0]) are the
    handlers with that bound left out.  So [end=0] does not restrict the
    answer to seconds up to 0: a sample stored at second 5 is still
    aggregated, although [timestamp <= 0] selects nothing. *)
Theorem zero_bound_is_absent :
  (forall label end_, api_aggregate label (Some 0) end_ = api_aggregate label None end_)
  /\ (forall label start, api_aggregate label start (Some 0) = api_aggregate label start None)
  /\ (forall end_, api_errors (Some 0) end_ = api_errors None end_)
  /\ (forall start, api_errors start (Some 0) = api_errors start None)
  /\ (forall end_, api_success (Some 0) end_ = api_success None end_)
  /\ (forall start, api_success start (Some 0) = api_success start None)
  /\ (forall start end_,
        (Sql.TimestampGe 0 ∉ time_conds start end_)
        /\ (Sql.TimestampLe 0 ∉ time_conds start end_))
  /\ (exists rows,
        (api_aggregate None None (Some 0)
           (mkWorld [mkSample 5 "Login" 100 1 1 "200" ""] 9)).1 = Ok rows
        /\ (agg_count <$> rows) = [1]
        /\ Sql.select [Sql.TimestampLe 0] [mkSample 5 "Login" 100 1 1 "200" ""] = []).
Proof.
  split; [reflexivity|]. split.
  { intros label start. unfold api_aggregate, aggregate_conds, time_conds.
    reflexivity. }
  split; [reflexivity|]. split.
  { intros start. unfold api_errors, time_conds. reflexivity. }
  split; [reflexivity|]. split.
  { intros start. unfold api_success, time_conds. reflexivity. }
  split.
  - intros start end_.
    split; intros Hin;
      destruct (time_conds_nonzero _ _ _ Hin) as [(a & E & Hne)|(b & E & Hne)];
      congruence.
  - eexists. split; [reflexivity|]. split; reflexivity.
Qed.

(** *** What the dict [agg] holds *)

Lemma agg_get_add (lab lab' : string) (rt : Q) (succ : Z) (agg : Agg) :
  agg_get lab (agg_add lab' rt succ agg)
  = if String.eqb lab' lab
    then Some ((default ([], 0) (agg_get lab agg)).1 ++ [rt],
               (default ([], 0) (agg_get lab agg)).2 + (if succ =? 0 then 1 else 0))
    else agg_get lab agg.
Proof.
  induction agg as [|[l [ss e]] agg IH]; simpl.
  - destruct (String.eqb_spec lab' lab) as [->|Hne]; [|reflexivity].
    reflexivity.
  - destruct (String.eqb_spec l lab') as [->|Hne]; simpl.
    + destruct (String.eqb_spec lab' lab) as [->|Hne']; [|reflexivity].
      simpl. destruct (succ =? 0); rewrite ?Z.add_0_r; reflexivity.
    + destruct (String.eqb_spec l lab) as [->|Hne'].
      * destruct (String.eqb_spec lab' lab) as [->|_]; [congruence|reflexivity].
      * exact IH.
Qed.

Lemma errors_of_cons (r : Sample) (g : list Sample) :
  errors_of (r :: g) = (if success r =? 0 then 1 else 0) + errors_of g.
Proof.
  unfold errors_of. simpl. destruct (success r =? 0); simpl; lia.
Qed.

Lemma agg_get_foldl (lab : string) (rows : list Sample) (agg : Agg) :
  agg_get lab
    (foldl (fun agg r => agg_add (label r) (response_time r) (success r) agg) agg rows)
  = extend (agg_get lab agg) (of_label lab rows).
Proof.
  revert agg. induction rows as [|r rows IH]; intros agg; simpl; [reflexivity|].
  rewrite IH, agg_get_add. unfold of_label. simpl.
  destruct (String.eqb_spec (label r) lab) as [E|Hne]; [|reflexivity].
  fold (of_label lab rows). unfold extend at 2.
  destruct (of_label lab rows) as [|r' g] eqn:Eg; simpl.
  - rewrite errors_of_cons. unfold errors_of. simpl. do 2 f_equal. lia.
  - rewrite <- app_assoc. simpl. rewrite !errors_of_cons. do 2 f_equal. lia.
Qed.

Lemma agg_add_keys (lab : string) (rt : Q) (succ : Z) (agg : Agg) :
  (agg_add lab rt succ agg).*1
  = if bool_decide (lab ∈ agg.*1) then agg.*1 else agg.*1 ++ [lab].
Proof.
  induction agg as [|[l [ss e]] agg IH]; [reflexivity|].
  cbn [agg_add]. destruct (String.eqb_spec l lab) as [->|Hne]; rewrite !fmap_cons.
  - cbn [fst]. rewrite bool_decide_eq_true_2 by left. reflexivity.
  - cbn [fst]. rewrite IH. destruct (decide (lab ∈ agg.*1)) as [Hin|Hout].
    + rewrite !bool_decide_eq_true_2; [reflexivity | right; exact Hin | exact Hin].
    + rewrite !bool_decide_eq_false_2; [reflexivity | | exact Hout].
      intros Hin. apply elem_of_cons in Hin as [E|Hin]; congruence.
Qed.

(** The labels of [agg] are the distinct labels of the fetched rows in
    order of first appearance. *)
Lemma build_agg_keys (rows : list Sample) :
  (build_agg rows).*1 = Sql.distinct (label <$> rows).
Proof.
  unfold build_agg, Sql.distinct.
  assert (G : forall agg,
    (foldl (fun agg r => agg_add (label r) (response_time r) (success r) agg)
           agg rows).*1
    = foldl (fun acc x => if bool_decide (x ∈ acc) then acc else acc ++ [x])
            agg.*1 (label <$> rows)).
  { induction rows as [|r rows IH]; intros agg; simpl; [reflexivity|].
    rewrite IH, agg_add_keys. reflexivity. }
  apply (G []).
Qed.

Lemma distinct_NoDup {K} `{EqDecision K} (l : list K) : NoDup (Sql.distinct l).
Proof.
  unfold Sql.distinct.
  assert (G : forall acc, NoDup acc ->
    NoDup (foldl (fun acc x => if bool_decide (x ∈ acc) then acc else acc ++ [x])
                 acc l)).
  { induction l as [|x l IH]; intros acc Hacc; simpl; [exact Hacc|].
    apply IH. destruct (decide (x ∈ acc)) as [Hin|Hout].
    - rewrite bool_decide_eq_true_2 by exact Hin. exact Hacc.
    - rewrite bool_decide_eq_false_2 by exact Hout.
      apply NoDup_app. split; [exact Hacc|]. split; [|apply NoDup_singleton].
      intros y Hy Hy'. apply list_elem_of_singleton in Hy'. congruence. }
  apply G. constructor.
Qed.

Lemma agg_get_elem (lab : string) (d : list Q * Z) (agg : Agg) :
  NoDup agg.*1 -> (lab, d) ∈ agg -> agg_get lab agg = Some d.
Proof.
  induction agg as [|[l d'] agg IH]; intros Hnd Hin; [inversion Hin|].
  simpl in *. apply NoDup_cons in Hnd as [Hl Hnd].
  apply elem_of_cons in Hin as [E|Hin].
  - injection E as <- <-. rewrite String.eqb_refl. reflexivity.
  - destruct (String.eqb_spec l lab) as [->|Hne]; [|auto].
    exfalso. apply Hl. apply list_elem_of_fmap. exists (lab, d). auto.
Qed.

(** Every entry of [agg] holds the response times of the label's rows, in
    table order, and the number of its failed rows; the label has at least
    one row. *)
Lemma build_agg_entry (rows : list Sample) (lab : string) (d : list Q * Z) :
  (lab, d) ∈ build_agg rows ->
  of_label lab rows <> []
  /\ d = (response_time <$> of_label lab rows, errors_of (of_label lab rows)).
Proof.
  intros Hin.
  assert (Hget : agg_get lab (build_agg rows) = Some d).
  { apply agg_get_elem; [|exact Hin].
    rewrite build_agg_keys. apply distinct_NoDup. }
  unfold build_agg in Hget. rewrite agg_get_foldl in Hget. simpl in Hget.
  unfold extend in Hget. destruct (of_label lab rows) as [|r g]; [discriminate|].
  split; [discriminate|]. simpl in Hget. injection Hget as <-. reflexivity.
Qed.

Lemma elem_of_insert_desc {A} (key : A -> Z) (x y : A) (l : list A) :
  y ∈ insert_desc key x l <-> y = x \/ y ∈ l.
Proof.
  induction l as [|z l IH]; simpl.
  - rewrite list_elem_of_singleton. split; [auto|].
    intros [E|E]; [exact E | inversion E].
  - destruct (key z <=? key x); [apply elem_of_cons|].
    rewrite !elem_of_cons, IH. tauto.
Qed.

Lemma elem_of_sorted_desc {A} (key : A -> Z) (y : A) (l : list A) :
  y ∈ sorted_desc key l <-> y ∈ l.
Proof.
  induction l as [|x l IH]; simpl; [reflexivity|].
  rewrite elem_of_insert_desc, IH, elem_of_cons. reflexivity.
Qed.

Lemma of_label_split (g : list Sample) :
  Z.of_nat (length (List.filter (fun r => negb (success r =? 0)) g)) + errors_of g
  = Z.of_nat (length g).
Proof.
  unfold errors_of. induction g as [|r g IH]; simpl; [reflexivity|].
  destruct (success r =? 0); simpl; lia.
Qed.

(** Every returned row was built from an entry of [agg]. *)
Lemma notreqired_row_origin (label : option string) (start end_ : option Z)
    (w : World) :
  exists rows,
    (api_aggregate label start end_ w).1 = Ok rows
    /\ forall r, r ∈ rows ->
         exists lab d,
           (lab, d) ∈ build_agg (Sql.select (aggregate_conds label start end_) (table w))
           /\ build_row lab d = Ok r.
Proof.
  destruct (api_aggregate_run label start end_ w) as (res & Hres & ->).
  set (sel := Sql.select (aggregate_conds label start end_) (table w)) in *.
  destruct (build_rows_ok (build_agg sel)) as (res' & Hres' & Hall).
  rewrite Hres in Hres'. injection Hres' as <-.
  exists (sorted_desc agg_count res). split; [reflexivity|].
  intros r Hr. apply elem_of_sorted_desc in Hr.
  apply list_elem_of_lookup_1 in Hr as [i Hi].
  destruct (Forall2_lookup_r _ _ _ _ _ Hall Hi) as ([lab d] & He & Hrow).
  apply list_elem_of_lookup_2 in He. exists lab, d. auto.
Qed.

(** The rows of [api_aggregate] in [notreqired.py]: each row counts the
    selected samples of its label, and its error percentage is the rounded
    share of the failed ones. *)
Lemma notreqired_rows (label : option string) (start end_ : option Z) (w : World) :
  exists rows,
    (api_aggregate label start end_ w).1 = Ok rows
    /\ forall r, r ∈ rows ->
         let g := of_label (agg_label r)
                    (Sql.select (aggregate_conds label start end_) (table w)) in
         agg_count r = Z.of_nat (length g)
         /\ 0 < agg_count r
         /\ Z.of_nat (length (List.filter (fun x => negb (success x =? 0)) g))
            + errors_of g = agg_count r
         /\ agg_error_pct r
            = round2 (inject_Z (errors_of g) / inject_Z (agg_count r) * 100).
Proof.
  destruct (notreqired_row_origin label start end_ w) as (rows & Hrun & Horigin).
  exists rows. split; [exact Hrun|].
  set (sel := Sql.select (aggregate_conds label start end_) (table w)) in *.
  intros r Hr g. destruct (Horigin r Hr) as (lab & d & He & Hrow).
  apply build_agg_entry in He as [Hne ->].
  destruct (build_row_ok lab
              (response_time <$> of_label lab sel, errors_of (of_label lab sel)))
    as (row & Hrow' & Hlab & Hcount & Hpct & _).
  rewrite Hrow' in Hrow. injection Hrow as ->.
  simpl in Hcount, Hpct. rewrite length_fmap in Hcount, Hpct.
  subst g. rewrite Hlab.
  assert (Hpos : 0 < Z.of_nat (length (of_label lab sel))).
  { destruct (of_label lab sel); [congruence|]. simpl. lia. }
  split; [exact Hcount|]. split; [lia|]. split.
  - rewrite Hcount. apply of_label_split.
  - rewrite Hpct, Hcount. unfold error_pct_of.
    destruct (Z.eqb_spec (Z.of_nat (length (of_label lab sel))) 0); [lia|].
    reflexivity.
Qed.

(** The percentile fields of a returned row are rounded answers of
    [percentile] on the label's sorted, non-empty response times. *)
Lemma notreqired_row_percentiles (label : option string) (start end_ : option Z)
    (w : World) :
  exists rows,
    (api_aggregate label start end_ w).1 = Ok rows
    /\ forall r, r ∈ rows ->
         let s := sorted (response_time
                            <$> of_label (agg_label r)
                                  (Sql.select (aggregate_conds label start end_)
                                              (table w))) in
         s <> []
         /\ (exists v, percentile s 90 = Ok (Some v) /\ agg_pct90 r = round2 v)
         /\ (exists v, percentile s 95 = Ok (Some v) /\ agg_pct95 r = round2 v)
         /\ (exists v, percentile s 99 = Ok (Some v) /\ agg_pct99 r = round2 v).
Proof.
  destruct (notreqired_row_origin label start end_ w) as (rows & Hrun & Horigin).
  exists rows. split; [exact Hrun|].
  set (sel := Sql.select (aggregate_conds label start end_) (table w)) in *.
  intros r Hr s. destruct (Horigin r Hr) as (lab & d & He & Hrow).
  apply build_agg_entry in He as [Hne ->].
  destruct (build_row_ok lab
              (response_time <$> of_label lab sel, errors_of (of_label lab sel)))
    as (row & Hrow' & Hlab & _ & _ & H90 & H95 & H99).
  rewrite Hrow' in Hrow. injection Hrow as ->.
  simpl in H90, H95, H99. subst s. rewrite Hlab.
  assert (Hs : sorted (response_time <$> of_label lab sel) <> []).
  { intros E. apply (f_equal length) in E.
    rewrite sorted_length, length_fmap in E.
    destruct (of_label lab sel); [congruence | discriminate]. }
  unfold from_percentile in H90, H95, H99.
  destruct (sorted (response_time <$> of_label lab sel)); [congruence|].
  auto.
Qed.

(** C7. On the empty list [percentile] answers [None] for every
    percentile and does not raise.  The aggregate engine never hands that
    [None] to [round] (which would raise [TypeError]): a percentile field
    calls [percentile] only for a non-empty sample list (for an empty one
    it is 0), the endpoint answers without an exception on every table and
    every filter, and in every row it returns the three percentile fields
    are rounded answers of [percentile] on a non-empty list. *)
Theorem empty_percentile_is_absent :
  (forall p, percentile [] p = Ok None)
  /\ round2_opt None = Raise TypeError
  /\ (forall p, pct_field [] p = Ok 0%Q)
  /\ (forall x s p, pct_field (x :: s) p = (v ← percentile (x :: s) p; round2_opt v))
  /\ (forall label start end_ w,
        exists rows,
          (api_aggregate label start end_ w).1 = Ok rows
          /\ forall r, r ∈ rows ->
               let s := sorted (response_time
                                  <$> of_label (agg_label r)
                                        (Sql.select (aggregate_conds label start end_)
                                                    (table w))) in
               s <> []
               /\ (exists v, percentile s 90 = Ok (Some v) /\ agg_pct90 r = round2 v)
               /\ (exists v, percentile s 95 = Ok (Some v) /\ agg_pct95 r = round2 v)
               /\ (exists v, percentile s 99 = Ok (Some v) /\ agg_pct99 r = round2 v)).
Proof.
  split; [reflexivity|]. split; [reflexivity|]. split; [reflexivity|].
  split; [reflexivity|].
  apply notreqired_row_percentiles.
Qed.

Lemma empty_percentile_is_absent_witness :
  exists v,
    percentile
      (sorted (response_time
                 <$> of_label "Login"
                       [mkSample 1000 "Login" 300 1 5 "200" "";
                        mkSample 1000 "Login" 100 1 5 "200" "";
                        mkSample 1001 "Login" 200 0 5 "500" "boom"])) 90
    = Ok (Some v).
Proof.
  destruct empty_percentile_is_absent as (_ & _ & _ & _ & Hrows).
  destruct (Hrows None None None
              (mkWorld [mkSample 1000 "Login" 300 1 5 "200" "";
                        mkSample 1000 "Login" 100 1 5 "200" "";
                        mkSample 1001 "Login" 200 0 5 "500" "boom"] 1001))
    as (rows & Hrun & Hall).
  destruct rows as [|r rows]; [discriminate|].
  injection Hrun as Hr _.
  destruct (Hall r (list_elem_of_here _ _)) as (_ & (v & Hv & _) & _).
  rewrite <- Hr in Hv. exists v. exact Hv.
Defined.

End Aggregate.

(** ** Aggregate rows: counts and order *)

Section ServerAggregate.

Import Dashboard.


Example login_scenario :
  exists r,
    (Notreqired.api_aggregate None None None
       (mkWorld [mkSample 1000 "Login" 100 1 5 "200" "";
                 mkSample 1000 "Login" 200 1 5 "200" "";
                 mkSample 1000 "Login" 300 1 5 "200" ""] 1000)).1 = Ok [r]
    /\ Notreqired.agg_count r = 3
    /\ (Notreqired.agg_avg r == 200)%Q
    /\ (Notreqired.agg_min r == 100)%Q /\ (Notreqired.agg_max r == 300)%Q
    /\ (Notreqired.agg_pct90 r == 280)%Q
    /\ (Notreqired.agg_error_pct r == 0)%Q.
Proof.
  eexists. split; [reflexivity|]. repeat split; reflexivity.
Qed.

(** *** Row order *)

Lemma insert_desc_HdRel {A} (key : A -> Z) (x y : A) (l : list A) :
  key x <= key y -> HdRel (fun a b => key b <= key a) y l ->
  HdRel (fun a b => key b <= key a) y (insert_desc key x l).
Proof.
  intros Hxy Hhd. destruct l as [|z l]; simpl.
  - constructor. exact Hxy.
  - destruct (key z <=? key x); constructor; [exact Hxy|].
    inversion Hhd; assumption.
Qed.

Lemma insert_desc_Sorted {A} (key : A -> Z) (x : A) (l : list A) :
  Sorted (fun a b => key b <= key a) l ->
  Sorted (fun a b => key b <= key a) (insert_desc key x l).
Proof.
  induction l as [|y l IH]; intros Hs; simpl.
  - repeat constructor.
  - destruct (Z.leb_spec (key y) (key x)) as [Hle|Hgt].
    + constructor; [exact Hs|]. constructor. exact Hle.
    + inversion Hs as [|? ? Hl Hhd]; subst.
      constructor; [apply IH; exact Hl|].
      apply insert_desc_HdRel; [lia | exact Hhd].
Qed.

Lemma sorted_desc_Sorted {A} (key : A -> Z) (l : list A) :
  Sorted (fun a b => key b <= key a) (sorted_desc key l).
Proof.
  induction l as [|x l IH]; simpl; [constructor|].
  apply insert_desc_Sorted. exact IH.
Qed.

(** The sort is stable: the rows of one key keep their order. *)
Lemma insert_desc_stable {A} (key : A -> Z) (c : Z) (x : A) (l : list A) :
  List.filter (fun r => key r =? c) (insert_desc key x l)
  = List.filter (fun r => key r =? c) (x :: l).
Proof.
  induction l as [|y l IH]; [reflexivity|].
  cbn [insert_desc]. destruct (Z.leb_spec (key y) (key x)) as [Hle|Hgt];
    [reflexivity|].
  cbn [List.filter] in *. rewrite IH.
  destruct (Z.eqb_spec (key x) c) as [Ex|Ex];
    destruct (Z.eqb_spec (key y) c) as [Ey|Ey]; try reflexivity.
  lia.
Qed.

Lemma sorted_desc_stable {A} (key : A -> Z) (c : Z) (l : list A) :
  List.filter (fun r => key r =? c) (sorted_desc key l)
  = List.filter (fun r => key r =? c) l.
Proof.
  induction l as [|x l IH]; [reflexivity|].
  cbn [sorted_desc foldr]. fold (sorted_desc key l).
  rewrite insert_desc_stable. cbn [List.filter]. rewrite IH. reflexivity.
Qed.

Lemma build_rows_labels (agg : Notreqired.Agg) (res : list Notreqired.AggRow) :
  Notreqired.build_rows agg = Ok res -> Notreqired.agg_label <$> res = agg.*1.
Proof.
  intros Hres. destruct (build_rows_ok agg) as (res' & Hres' & Hall).
  rewrite Hres in Hres'. injection Hres' as <-. clear Hres.
  induction Hall as [|e r agg' res' He Hall IH]; [reflexivity|].
  rewrite !fmap_cons. f_equal; [|exact IH].
  destruct (build_row_ok e.1 e.2) as (row & Hrow & Hlab & _).
  rewrite Hrow in He. injection He as <-. exact Hlab.
Qed.

(** C4 (amended).  The rows of [api_aggregate] in [notreqired.py] are in
    descending order of count, and rows of equal count keep the order in
    which their labels first appear among the selected samples (the sort is
    stable and no label comparison takes place). *)
Theorem aggregate_row_order (lab : option string) (start end_ : option Z)
    (w : World) :
  exists res rows,
    Notreqired.build_rows
      (Notreqired.build_agg
         (Sql.select (Notreqired.aggregate_conds lab start end_) (table w)))
    = Ok res
    /\ (Notreqired.api_aggregate lab start end_ w).1 = Ok rows
    /\ Notreqired.agg_label <$> res
       = Sql.distinct
           (label
              <$> Sql.select (Notreqired.aggregate_conds lab start end_) (table w))
    /\ Sorted (fun a b => Notreqired.agg_count b <= Notreqired.agg_count a) rows
    /\ forall c,
         List.filter (fun r => Notreqired.agg_count r =? c) rows
         = List.filter (fun r => Notreqired.agg_count r =? c) res.
Proof.
  destruct (api_aggregate_run lab start end_ w) as (res & Hres & ->).
  exists res, (sorted_desc Notreqired.agg_count res).
  split; [exact Hres|]. split; [reflexivity|]. split; [|split].
  - rewrite (build_rows_labels _ _ Hres). apply build_agg_keys.
  - apply sorted_desc_Sorted.
  - intros c. apply sorted_desc_stable.
Qed.

(** Counterexample to C4 as stated: two labels of equal count stay in
    order of arrival, here "b" before "a". *)
Lemma tie_order_counterexample :
  exists rb ra,
    (Notreqired.api_aggregate None None None
       (mkWorld [mkSample 1000 "b" 10 1 1 "200" "";
                 mkSample 1000 "a" 20 1 1 "200" ""] 1000)).1 = Ok [rb; ra]
    /\ Notreqired.agg_count rb = Notreqired.agg_count ra
    /\ Notreqired.agg_label rb = "b"%string /\ Notreqired.agg_label ra = "a"%string
    /\ String.compare (Notreqired.agg_label rb) (Notreqired.agg_label ra) = Gt.
Proof.
  eexists. eexists. split; [reflexivity|]. repeat split; reflexivity.
Qed.

End ServerAggregate.

(** ** The ingest normalizer *)

Section Normalizer.

Import Dashboard.

Lemma get_chain2 (d : gmap string json) (a b : string) (v : json) :
  get d a (get d b v) = first_present d [a; b] v.
Proof. unfold get. simpl. reflexivity. Qed.

Lemma get_chain3 (d : gmap string json) (a b c : string) (v : json) :
  get d a (get d b (get d c v)) = first_present d [a; b; c] v.
Proof. unfold get. simpl. reflexivity. Qed.

(** The handler stores a sample exactly when every conversion succeeds, and
    the sample is then the resolved one. *)
Lemma receive_metrics_200 (d : gmap string json) (w w' : World) :
  receive_metrics (JObj d) w = (Ok 200, w') <->
  d <> ∅ /\ exists s, resolved d (clock w) s
                      /\ w' = mkWorld (table w ++ [s]) (clock w).
Proof.
  unfold receive_metrics, resolved. cbn [truthy].
  rewrite !get_chain3, !get_chain2.
  destruct (decide (d = ∅)) as [->|Hne].
  { rewrite bool_decide_eq_false_2 by auto. simpl. split.
    - intros H. discriminate.
    - intros [H _]. congruence. }
  rewrite bool_decide_eq_true_2 by exact Hne. cbn [negb].
  unfold mbind, M_bind, bind, lift, time_time, insert, mret, M_ret, ret.
  split.
  - destruct (resolve_success d) as [succ|e1] eqn:E1; [|discriminate].
    destruct (str _) as [sc|e2] eqn:E2; [|discriminate].
    destruct (int _) as [tc|e3] eqn:E3; [|discriminate].
    destruct (float _) as [rt|e4] eqn:E4; [|discriminate].
    destruct (bind_text (first_present d ["label"; "sampler"] (JStr "ALL")))
      as [lab|e5] eqn:E5; [|discriminate].
    destruct (bind_text (if succ =? 0 then _ else _)) as [msg|e6] eqn:E6;
      [|discriminate].
    intros H. injection H as <-. split; [exact Hne|].
    exists (mkSample (clock w) lab rt succ tc sc msg). simpl.
    repeat split; auto.
  - intros (_ & s & (Hts & Hlab & Hrt & Hsucc & Hsc & Htc & Hmsg) & ->).
    rewrite Hsucc, Hsc, Htc, Hrt, Hlab, Hmsg.
    destruct s; simpl in *. subst. reflexivity.
Qed.




(** The flag is always 0 or 1. *)
Lemma resolve_success_flag (d : gmap string json) (succ : Z) :
  resolve_success d = Ok succ -> succ = 0 \/ succ = 1.
Proof.
  unfold resolve_success.
  destruct (contains d "success").
  - intros H. injection H as <-. destruct (truthy _); auto.
  - destruct (contains d "errorPct"); [|intros H; injection H as <-; auto].
    destruct (gt_zero _) as [[|]|e]; simpl; intros H;
      [injection H as <-; auto | injection H as <-; auto | discriminate].
Qed.








(** Whatever the payload, the handler leaves the table as it was or adds
    one sample whose flag is 0 or 1: a table of 0/1 flags stays one. *)
Lemma receive_metrics_keeps_flags (data : json) (w : World) :
  (forall s, s ∈ table w -> success s = 0 \/ success s = 1) ->
  forall s, s ∈ table (receive_metrics data w).2 -> success s = 0 \/ success s = 1.
Proof.
  intros Hinv. unfold receive_metrics.
  destruct (truthy data); [|exact Hinv]. cbn [negb].
  destruct data; try exact Hinv.
  unfold mbind, M_bind, bind, lift, time_time, insert, mret, M_ret, ret.
  destruct (resolve_success m) as [succ|e1] eqn:E1; [|exact Hinv].
  destruct (str _) as [sc|e2]; [|exact Hinv].
  destruct (int _) as [tc|e3]; [|exact Hinv].
  destruct (float _) as [rt|e4]; [|exact Hinv].
  destruct (bind_text (get m "label" _)) as [lab|e5]; [|exact Hinv].
  destruct (bind_text (if succ =? 0 then _ else _)) as [msg|e6]; [|exact Hinv].
  cbn [snd table]. intros s Hs. apply elem_of_app in Hs as [Hs|Hs]; [auto|].
  apply list_elem_of_singleton in Hs as ->. cbn [success].
  apply (resolve_success_flag m). exact E1.
Qed.



(** C6 (amended).  A stored sample has flag 0 or 1.  When the flag is 1
    the error message is the empty string, whatever the payload carries.
    When the flag is 0 the message is the one under [errorMessage], else
    [errorMsg], else the empty string: a failed sample may have an empty
    message. *)
Theorem success_forces_empty_message (data : json) (w w' : World) :
  receive_metrics data w = (Ok 200, w') ->
  exists d s,
    data = JObj d
    /\ w' = mkWorld (table w ++ [s]) (clock w)
    /\ (success s = 0 \/ success s = 1)
    /\ (success s = 1 -> error_message s = ""%string)
    /\ (success s = 0 ->
          JStr (error_message s)
          = first_present d ["errorMessage"; "errorMsg"] (JStr "")).
Proof.
  intros Hrun.
  assert (Hobj : exists d, data = JObj d).
  { unfold receive_metrics in Hrun.
    destruct (truthy data); simpl in Hrun; [|discriminate].
    destruct data; try discriminate. eauto. }
  destruct Hobj as [d ->].
  apply receive_metrics_200 in Hrun as (_ & s & Hres & ->).
  destruct Hres as (_ & _ & _ & Hsucc & _ & _ & Hmsg).
  exists d, s. split; [reflexivity|]. split; [reflexivity|].
  split; [apply (resolve_success_flag d); exact Hsucc|]. split.
  - intros E. rewrite E in Hmsg. change (1 =? 0) with false in Hmsg.
    cbv iota in Hmsg. unfold bind_text in Hmsg. congruence.
  - intros E. rewrite E in Hmsg. change (0 =? 0) with true in Hmsg.
    cbv iota in Hmsg.
    destruct (first_present d ["errorMessage"; "errorMsg"] (JStr ""));
      try discriminate. unfold bind_text in Hmsg. congruence.
Qed.

Lemma success_forces_empty_message_witness :
  exists d s,
    JObj (<["success" := JBool true]> (<["errorMessage" := JStr "ignored"]> ∅)) = JObj d
    /\ mkWorld [mkSample 1000 "ALL" 0 1 0 "200" ""] 1000
       = mkWorld ([] ++ [s]) 1000
    /\ (success s = 0 \/ success s = 1)
    /\ (success s = 1 -> error_message s = ""%string)
    /\ (success s = 0 ->
          JStr (error_message s)
          = first_present d ["errorMessage"; "errorMsg"] (JStr "")).
Proof.
  apply (success_forces_empty_message
           (JObj (<["success" := JBool true]> (<["errorMessage" := JStr "ignored"]> ∅)))
           (mkWorld [] 1000)).
  vm_compute. reflexivity.
Defined.

(** Counterexample to C6 as stated: a payload that only says
    [success: false] is stored as a failed sample with an empty error
    message. *)
Lemma failed_sample_empty_message_counterexample :
  exists s,
    receive_metrics (JObj (<["success" := JBool false]> ∅)) (mkWorld [] 1000)
    = (Ok 200, mkWorld [s] 1000)
    /\ success s = 0 /\ error_message s = ""%string
    /\ ~ (error_message s = ""%string <-> success s = 1).
Proof.
  eexists. split; [vm_compute; reflexivity|].
  split; [reflexivity|]. split; [reflexivity|].
  simpl. intros [H _]. specialize (H eq_refl). discriminate.
Qed.

End Normalizer.

(** ** More facts about the runtime fragments *)

Section MoreRuntimeFacts.

Local Open Scope Q_scope.

Lemma insert_asc_sorted (x : Q) (l : list Q) :
  is_sorted l = true -> is_sorted (insert_asc x l) = true.
Proof.
  induction l as [|y l IH]; intros Hs; [reflexivity|].
  cbn [insert_asc]. destruct (Qle_bool x y) eqn:Exy.
  - change (Qle_bool x y && is_sorted (y :: l) = true). rewrite Exy, Hs. reflexivity.
  - assert (Hyx : y <= x).
    { destruct (Qlt_le_dec y x) as [H|H]; [apply Qlt_le_weak; exact H|].
      apply Qle_bool_iff in H. congruence. }
    destruct (is_sorted_cons y l Hs) as [Hl Hall].
    specialize (IH Hl).
    destruct l as [|z l]; cbn [insert_asc] in *.
    + simpl. apply Qle_bool_iff in Hyx. rewrite Hyx. reflexivity.
    + destruct (Qle_bool x z) eqn:Exz.
      * change (Qle_bool y x && is_sorted (x :: z :: l) = true).
        apply Qle_bool_iff in Hyx. rewrite Hyx, IH. reflexivity.
      * change (Qle_bool y z && is_sorted (z :: insert_asc x l) = true).
        assert (Hyz : y <= z) by (apply Hall; left).
        apply Qle_bool_iff in Hyz. rewrite Hyz, IH. reflexivity.
Qed.

Lemma sorted_is_sorted (l : list Q) : is_sorted (sorted l) = true.
Proof.
  induction l as [|x l IH]; [reflexivity|].
  cbn [sorted foldr]. apply insert_asc_sorted. exact IH.
Qed.

Lemma insert_asc_perm (x : Q) (l : list Q) : insert_asc x l ≡ₚ x :: l.
Proof.
  induction l as [|y l IH]; [reflexivity|].
  cbn [insert_asc]. destruct (Qle_bool x y); [reflexivity|].
  rewrite IH. apply Permutation_swap.
Qed.

Lemma sorted_perm (l : list Q) : sorted l ≡ₚ l.
Proof.
  induction l as [|x l IH]; [reflexivity|].
  cbn [sorted foldr]. rewrite insert_asc_perm. fold (sorted l). rewrite IH.
  reflexivity.
Qed.

Lemma insert_desc_perm {A} (key : A -> Z) (x : A) (l : list A) :
  insert_desc key x l ≡ₚ x :: l.
Proof.
  induction l as [|y l IH]; [reflexivity|].
  cbn [insert_desc]. destruct (key y <=? key x)%Z; [reflexivity|].
  rewrite IH. apply Permutation_swap.
Qed.

Lemma sorted_desc_perm {A} (key : A -> Z) (l : list A) : sorted_desc key l ≡ₚ l.
Proof.
  induction l as [|x l IH]; [reflexivity|].
  cbn [sorted_desc foldr]. rewrite insert_desc_perm. fold (sorted_desc key l).
  rewrite IH. reflexivity.
Qed.




(** An integer is its own rounding. *)
Lemma round_half_even_Z (z : Z) : round_half_even (inject_Z z) = z.
Proof.
  unfold round_half_even. rewrite Qfloor_Z.
  assert (E : inject_Z z - inject_Z z == 0) by ring.
  assert (C : (inject_Z z - inject_Z z ?= 1 # 2) = Lt).
  { apply Qlt_alt. rewrite E. reflexivity. }
  rewrite C. reflexivity.
Qed.

End MoreRuntimeFacts.

(** ** More about the aggregate engine of [notreqired.py] *)

Section AggregateMore.

Import Dashboard Notreqired.

Lemma total_perm (l k : list Z) : l ≡ₚ k -> total l = total k.
Proof.
  induction 1 as [|x l k _ IH|x y l|l k m _ IH1 _ IH2]; simpl; lia.
Qed.

Lemma distinct_step {K} `{EqDecision K} (l : list K) (acc : list K) :
  forall x, x ∈ foldl (fun acc x => if bool_decide (x ∈ acc) then acc else acc ++ [x])
                      acc l
            <-> x ∈ acc \/ x ∈ l.
Proof.
  revert acc. induction l as [|y l IH]; intros acc x; simpl.
  - split; [auto|]. intros [H|H]; [exact H | inversion H].
  - rewrite IH. destruct (decide (y ∈ acc)) as [Hin|Hout].
    + rewrite bool_decide_eq_true_2 by exact Hin. rewrite elem_of_cons.
      split; [tauto|]. intros [H|[->|H]]; auto.
    + rewrite bool_decide_eq_false_2 by exact Hout.
      rewrite elem_of_app, list_elem_of_singleton, elem_of_cons. tauto.
Qed.

Lemma elem_of_distinct {K} `{EqDecision K} (l : list K) (x : K) :
  x ∈ Sql.distinct l <-> x ∈ l.
Proof.
  unfold Sql.distinct. rewrite distinct_step. split; [|auto].
  intros [H|H]; [inversion H | exact H].
Qed.

Lemma total_cons (x : Z) (l : list Z) : total (x :: l) = x + total l.
Proof. reflexivity. Qed.

(** Each element falls under exactly one of a duplicate-free list of keys. *)
Lemma count_key_none {K} `{EqDecision K} (keys : list K) (a : K) :
  a ∉ keys ->
  total ((fun k => if bool_decide (a = k) then 1 else 0) <$> keys) = 0.
Proof.
  induction keys as [|k keys IH]; intros Ha; [reflexivity|].
  apply not_elem_of_cons in Ha as [Hne Ha].
  rewrite fmap_cons, total_cons, IH by exact Ha.
  rewrite bool_decide_eq_false_2 by exact Hne. reflexivity.
Qed.

Lemma count_key_once {K} `{EqDecision K} (keys : list K) (a : K) :
  NoDup keys -> a ∈ keys ->
  total ((fun k => if bool_decide (a = k) then 1 else 0) <$> keys) = 1.
Proof.
  induction keys as [|k keys IH]; intros Hnd Ha; [inversion Ha|].
  apply NoDup_cons in Hnd as [Hk Hnd]. rewrite fmap_cons, total_cons.
  destruct (decide (a = k)) as [->|Hne].
  - rewrite bool_decide_eq_true_2 by reflexivity.
    rewrite count_key_none by exact Hk. reflexivity.
  - rewrite bool_decide_eq_false_2 by exact Hne.
    apply elem_of_cons in Ha as [E|Ha]; [contradiction|].
    rewrite IH by assumption. reflexivity.
Qed.

(** Grouping by a key loses and repeats nothing: the sizes of the groups
    of a duplicate-free list of keys that covers the list add up to its
    length. *)
Lemma group_sizes_total {A K} `{EqDecision K} (f : A -> K) (keys : list K)
    (l : list A) :
  NoDup keys -> (forall x, x ∈ l -> f x ∈ keys) ->
  total ((fun k => Z.of_nat (length (List.filter (fun x => bool_decide (f x = k)) l)))
           <$> keys)
  = Z.of_nat (length l).
Proof.
  intros Hnd. induction l as [|x l IH]; intros Hcov.
  - cbn [List.filter length]. clear.
    induction keys as [|k keys IH]; [reflexivity|].
    rewrite fmap_cons, total_cons, IH. reflexivity.
  - assert (E : forall ks,
      total ((fun k => Z.of_nat (length (List.filter (fun y => bool_decide (f y = k))
                                                     (x :: l)))) <$> ks)
      = total ((fun k => if bool_decide (f x = k) then 1 else 0) <$> ks)
        + total ((fun k => Z.of_nat (length (List.filter
                                               (fun y => bool_decide (f y = k)) l)))
                   <$> ks)).
    { induction ks as [|k ks IHk]; [reflexivity|].
      rewrite !fmap_cons, !total_cons, IHk. cbn [List.filter].
      destruct (bool_decide (f x = k)); cbn [length]; lia. }
    rewrite E, IH, count_key_once.
    + cbn [length]. lia.
    + exact Hnd.
    + apply Hcov. left.
    + intros y Hy. apply Hcov. right. exact Hy.
Qed.

Lemma of_label_filter (lab : string) (rows : list Sample) :
  of_label lab rows = List.filter (fun r => bool_decide (label r = lab)) rows.
Proof.
  unfold of_label. induction rows as [|r rows IH]; [reflexivity|]. simpl.
  rewrite IH. destruct (String.eqb_spec (label r) lab) as [E|E].
  - rewrite bool_decide_eq_true_2 by exact E. reflexivity.
  - rewrite bool_decide_eq_false_2 by exact E. reflexivity.
Qed.

(** The rows before the sort, label by label. *)
Lemma build_rows_counts (sel : list Sample) (res : list AggRow) :
  build_rows (build_agg sel) = Ok res ->
  agg_label <$> res = Sql.distinct (label <$> sel)
  /\ agg_count <$> res
     = (fun lab => Z.of_nat (length (of_label lab sel)))
         <$> Sql.distinct (label <$> sel).
Proof.
  intros Hres. split.
  { rewrite (build_rows_labels _ _ Hres). apply build_agg_keys. }
  rewrite <- build_agg_keys.
  destruct (build_rows_ok (build_agg sel)) as (res' & Hres' & Hall).
  rewrite Hres in Hres'. injection Hres' as <-. clear Hres.
  assert (Hent : forall e, e ∈ build_agg sel ->
            length e.2.1 = length (of_label e.1 sel)).
  { intros [lab d] He. apply build_agg_entry in He as [_ ->]. simpl.
    apply length_fmap. }
  revert Hall Hent. generalize (build_agg sel). intros agg Hall Hent.
  induction Hall as [|e r agg' res' He Hall IH]; [reflexivity|].
  rewrite !fmap_cons. f_equal.
  - destruct (build_row_ok e.1 e.2) as (row & Hrow & _ & Hcount & _).
    rewrite Hrow in He. injection He as <-. rewrite Hcount.
    rewrite (Hent e) by left. reflexivity.
  - apply IH. intros e' He'. apply Hent. right. exact He'.
Qed.

Lemma api_aggregate_rows_perm (lab : option string) (start end_ : option Z)
    (w : World) :
  exists res rows,
    build_rows (build_agg (Sql.select (aggregate_conds lab start end_) (table w)))
    = Ok res
    /\ (api_aggregate lab start end_ w).1 = Ok rows
    /\ rows ≡ₚ res.
Proof.
  destruct (api_aggregate_run lab start end_ w) as (res & Hres & ->).
  exists res, (sorted_desc agg_count res).
  split; [exact Hres|]. split; [reflexivity|]. apply sorted_desc_perm.
Qed.

(** X1. The aggregate of [notreqired.py] accounts for every selected
    sample exactly once: there is one row per label that occurs among the
    selected samples, no label has two rows, and the counts of the rows add
    up to the number of selected samples. *)
Theorem aggregate_counts_each_sample_once (lab : option string)
    (start end_ : option Z) (w : World) :
  exists rows,
    (api_aggregate lab start end_ w).1 = Ok rows
    /\ NoDup (agg_label <$> rows)
    /\ (forall l, l ∈ agg_label <$> rows <->
          exists s, s ∈ Sql.select (aggregate_conds lab start end_) (table w)
                    /\ label s = l)
    /\ total (agg_count <$> rows)
       = Z.of_nat (length (Sql.select (aggregate_conds lab start end_) (table w))).
Proof.
  destruct (api_aggregate_rows_perm lab start end_ w) as (res & rows & Hres & Hrun & Hp).
  set (sel := Sql.select (aggregate_conds lab start end_) (table w)) in *.
  destruct (build_rows_counts sel res Hres) as [Hlabels Hcounts].
  exists rows. split; [exact Hrun|]. split; [|split].
  - rewrite Hp, Hlabels. apply distinct_NoDup.
  - intros l. rewrite Hp, Hlabels, elem_of_distinct, list_elem_of_fmap.
    split; intros (s & H1 & H2); exists s; auto.
  - rewrite (total_perm _ (agg_count <$> res)) by (rewrite Hp; reflexivity).
    rewrite Hcounts.
    rewrite (list_fmap_ext _
               (fun k => Z.of_nat (length (List.filter
                                             (fun x => bool_decide (label x = k)) sel)))
               (Sql.distinct (label <$> sel)))
      by (intros i k _; simpl; rewrite of_label_filter; reflexivity).
    apply group_sizes_total; [apply distinct_NoDup|].
    intros x Hx. apply elem_of_distinct, list_elem_of_fmap. exists x. auto.
Qed.

(** X2. With a non-empty [label] argument the aggregate of
    [notreqired.py] has at most one row, and that row carries the requested
    label; it has a row exactly when a stored sample of that label passes
    the time bounds. *)
Theorem label_filter_gives_one_row (l : string) (start end_ : option Z)
    (w : World) :
  l <> ""%string ->
  exists rows,
    (api_aggregate (Some l) start end_ w).1 = Ok rows
    /\ (length rows <= 1)%nat
    /\ (forall r, r ∈ rows -> agg_label r = l)
    /\ (rows <> [] <->
        exists s, s ∈ Sql.select (time_conds start end_) (table w) /\ label s = l).
Proof.
  intros Hl.
  destruct (api_aggregate_rows_perm (Some l) start end_ w)
    as (res & rows & Hres & Hrun & Hp).
  assert (Econds : aggregate_conds (Some l) start end_
                   = Sql.LabelEq l :: time_conds start end_).
  { unfold aggregate_conds, truthy_str.
    destruct (String.eqb_spec l ""); [contradiction | reflexivity]. }
  rewrite Econds in Hres.
  set (sel := Sql.select (Sql.LabelEq l :: time_conds start end_) (table w)) in *.
  destruct (build_rows_counts sel res Hres) as [Hlabels _].
  assert (Hsel : forall s, s ∈ sel <->
            s ∈ Sql.select (time_conds start end_) (table w) /\ label s = l).
  { intros s. unfold sel. rewrite !elem_of_select. cbn [forallb Sql.holds].
    rewrite andb_true_iff. split.
    - intros (Ht & Hlab & Hc). apply String.eqb_eq in Hlab. auto.
    - intros ((Ht & Hc) & Hlab). split; [exact Ht|]. split; [|exact Hc].
      apply String.eqb_eq. exact Hlab. }
  assert (Hall : forall x, x ∈ agg_label <$> rows -> x = l).
  { intros x Hx. rewrite Hp, Hlabels in Hx.
    apply elem_of_distinct, list_elem_of_fmap in Hx as (s & -> & Hs).
    apply Hsel in Hs. tauto. }
  assert (Hnd : NoDup (agg_label <$> rows))
    by (rewrite Hp, Hlabels; apply distinct_NoDup).
  exists rows. split; [exact Hrun|]. split; [|split].
  - destruct rows as [|r1 [|r2 rows]]; simpl; try lia. exfalso.
    rewrite !fmap_cons in Hnd, Hall.
    apply NoDup_cons in Hnd as [Hnot _]. apply Hnot.
    rewrite (Hall (agg_label r1)) by left.
    rewrite <- (Hall (agg_label r2)) by (right; left). left.
  - intros r Hr. apply Hall. apply list_elem_of_fmap. exists r. auto.
  - split.
    + intros Hne. destruct rows as [|r rows]; [congruence|].
      assert (Hin : agg_label r ∈ agg_label <$> r :: rows) by (rewrite fmap_cons; left).
      rewrite Hp, Hlabels in Hin.
      apply elem_of_distinct, list_elem_of_fmap in Hin as (s & _ & Hs).
      exists s. apply Hsel. exact Hs.
    + intros (s & Hs & Hlab) ->.
      assert (Hin : label s ∈ Sql.distinct (label <$> sel)).
      { apply elem_of_distinct, list_elem_of_fmap. exists s. split; [reflexivity|].
        apply Hsel. auto. }
      rewrite <- Hlabels in Hin.
      apply Permutation_nil_l in Hp. rewrite <- Hp in Hin. inversion Hin.
Qed.

Lemma label_filter_gives_one_row_witness :
  exists rows,
    (api_aggregate (Some "Pay"%string) None None
       (mkWorld [mkSample 1000 "Login" 100 1 5 "200" "";
                 mkSample 1001 "Pay" 300 0 5 "500" "boom";
                 mkSample 1002 "Pay" 200 1 5 "200" ""] 1002)).1 = Ok rows
    /\ (length rows <= 1)%nat
    /\ (forall r, r ∈ rows -> agg_label r = "Pay"%string).
Proof.
  destruct (label_filter_gives_one_row "Pay" None None
              (mkWorld [mkSample 1000 "Login" 100 1 5 "200" "";
                        mkSample 1001 "Pay" 300 0 5 "500" "boom";
                        mkSample 1002 "Pay" 200 1 5 "200" ""] 1002))
    as (rows & Hrun & Hlen & Hlab & _).
  { discriminate. }
  exists rows. auto.
Defined.

Lemma build_row_min_max (lab : string) (d : list Q * Z) (row : AggRow) :
  d.1 <> [] -> build_row lab d = Ok row ->
  head (sorted d.1) = Some (agg_min row) /\ last (sorted d.1) = Some (agg_max row).
Proof.
  intros Hne Hrow.
  assert (Hs : sorted d.1 <> []).
  { intros E. apply (f_equal length) in E. rewrite sorted_length in E.
    destruct d.1; [congruence | discriminate]. }
  destruct (index_first (sorted d.1) Hs) as (mn & Hmn & Imn).
  destruct (index_last (sorted d.1) Hs) as (mx & Hmx & Imx).
  unfold build_row in Hrow.
  destruct (sorted d.1) as [|x s] eqn:E; [congruence|].
  rewrite Imn, Imx in Hrow. cbn [mbind result_bind Py.bind] in Hrow.
  destruct (pct_field_ok (x :: s) 90) as (p90 & E90 & _); [easy | easy |].
  destruct (pct_field_ok (x :: s) 95) as (p95 & E95 & _); [easy | easy |].
  destruct (pct_field_ok (x :: s) 99) as (p99 & E99 & _); [easy | easy |].
  rewrite E90 in Hrow. cbn [mbind result_bind Py.bind] in Hrow.
  rewrite E95 in Hrow. cbn [mbind result_bind Py.bind] in Hrow.
  rewrite E99 in Hrow. cbn [mbind result_bind Py.bind] in Hrow.
  injection Hrow as <-. cbn [agg_min agg_max]. auto.
Qed.

(** X3. In every row of the aggregate of [notreqired.py] [min] and [max]
    are response times of selected samples of the row's label, and every
    such response time lies between them. *)
Theorem aggregate_min_max (lab : option string) (start end_ : option Z)
    (w : World) :
  exists rows,
    (api_aggregate lab start end_ w).1 = Ok rows
    /\ forall r, r ∈ rows ->
         let times := response_time
                        <$> of_label (agg_label r)
                              (Sql.select (aggregate_conds lab start end_) (table w)) in
         agg_min r ∈ times /\ agg_max r ∈ times
         /\ forall x, x ∈ times -> (agg_min r <= x)%Q /\ (x <= agg_max r)%Q.
Proof.
  destruct (notreqired_row_origin lab start end_ w) as (rows & Hrun & Horigin).
  exists rows. split; [exact Hrun|].
  set (sel := Sql.select (aggregate_conds lab start end_) (table w)) in *.
  intros r Hr times. destruct (Horigin r Hr) as (l & d & He & Hrow).
  apply build_agg_entry in He as [Hne ->].
  destruct (build_row_ok l
              (response_time <$> of_label l sel, errors_of (of_label l sel)))
    as (row & Hrow' & Hlab & _).
  assert (row = r) by congruence. subst row. subst times. rewrite Hlab.
  set (times := response_time <$> of_label l sel) in *.
  assert (Htimes : times <> []).
  { unfold times. destruct (of_label l sel); [congruence | discriminate]. }
  destruct (build_row_min_max l (times, errors_of (of_label l sel)) r Htimes Hrow)
    as [Hmin Hmax].
  cbn [fst] in Hmin, Hmax.
  pose proof (sorted_is_sorted times) as Hsorted.
  pose proof (sorted_perm times) as Hperm.
  assert (Hmin_in : agg_min r ∈ sorted times).
  { rewrite head_lookup in Hmin. eapply list_elem_of_lookup_2; eauto. }
  assert (Hmax_in : agg_max r ∈ sorted times).
  { rewrite last_lookup in Hmax. eapply list_elem_of_lookup_2; eauto. }
  split; [rewrite <- Hperm; exact Hmin_in|].
  split; [rewrite <- Hperm; exact Hmax_in|].
  intros x Hx. rewrite <- Hperm in Hx. split.
  - apply (sorted_first_le (sorted times)); auto.
  - apply (sorted_le_last (sorted times)); auto.
Qed.

End AggregateMore.

(** ** Edge behaviour of the percentile calculator *)

Section PercentileEdges.

Import Dashboard.
Local Open Scope Q_scope.





Lemma index_negative {A} (l : list A) (i : Z) :
  (- Z.of_nat (length l) <= i < 0)%Z ->
  exists x, l !! Z.to_nat (Z.of_nat (length l) + i) = Some x /\ index l i = Ok x.
Proof.
  intros Hi. unfold index.
  destruct (Z.ltb_spec i 0); [|lia].
  destruct (Z.leb_spec 0 (Z.of_nat (length l) + i)); [|lia].
  destruct (Z.ltb_spec (Z.of_nat (length l) + i) (Z.of_nat (length l))); [|lia].
  destruct (lookup_lt_is_Some_2 l (Z.to_nat (Z.of_nat (length l) + i))) as [x Hx];
    [lia|].
  exists x. rewrite Hx. auto.
Qed.

Lemma index_wraps {A} (l : list A) (i : Z) :
  (- Z.of_nat (length l) <= i < Z.of_nat (length l))%Z ->
  exists x, x ∈ l /\ index l i = Ok x.
Proof.
  intros Hi. destruct (Z_lt_ge_dec i 0) as [Hneg|Hpos].
  - destruct (index_negative l i) as (x & Hx & Hix); [lia|].
    exists x. split; [eapply list_elem_of_lookup_2; eauto | exact Hix].
  - destruct (index_in_range l i) as (x & Hx & Hix); [lia|].
    exists x. split; [eapply list_elem_of_lookup_2; eauto | exact Hix].
Qed.

(** X8. A negative percentile down to -100 does not raise: its two ranks
    are negative indices, which Python counts from the end of the list, so
    on a non-empty list the calculator still answers a number. *)
Theorem percentile_negative_wraps (S : list Q) (p : Q) :
  S <> [] -> -(100) <= p -> p < 0 ->
  exists v, percentile S p = Ok (Some v).
Proof.
  intros Hne Hp0 Hp1.
  set (n := Z.of_nat (length S)).
  assert (Hn : (1 <= n)%Z) by (unfold n; destruct S; [congruence | simpl; lia]).
  set (k := inject_Z (n - 1) * (p / 100)).
  assert (Hm : 0 <= inject_Z (n - 1)).
  { change 0 with (inject_Z 0). rewrite <- Zle_Qle. lia. }
  assert (Hq0 : -(1) <= p / 100).
  { apply Qle_shift_div_l; [reflexivity|]. exact Hp0. }
  assert (Hq1 : p / 100 <= 0).
  { apply Qle_shift_div_r; [reflexivity|]. rewrite Qmult_0_l.
    apply Qlt_le_weak. exact Hp1. }
  assert (Hk0 : inject_Z (- (n - 1)) <= k).
  { unfold k. rewrite inject_Z_opp.
    assert (E : - inject_Z (n - 1) == inject_Z (n - 1) * -(1)) by ring.
    rewrite E, !(Qmult_comm (inject_Z (n - 1))).
    apply Qmult_le_compat_r; assumption. }
  assert (Hk1 : k <= 0).
  { unfold k. apply Qle_trans with (inject_Z (n - 1) * 0).
    - rewrite !(Qmult_comm (inject_Z (n - 1))).
      apply Qmult_le_compat_r; assumption.
    - rewrite Qmult_0_r. apply Qle_refl. }
  assert (Hf : (- (n - 1) <= Qfloor k)%Z).
  { rewrite <- (Qfloor_Z (- (n - 1))). apply Qfloor_resp_le. exact Hk0. }
  assert (Hc : (Qceiling k <= 0)%Z).
  { change 0%Z with (Qceiling 0). apply Qceiling_resp_le. exact Hk1. }
  assert (Hfc : (Qfloor k <= Qceiling k)%Z).
  { rewrite Zle_Qle. apply Qle_floor_ceiling. }
  destruct (index_wraps S (Qfloor k)) as (a & Ha & Hia); [fold n; lia|].
  destruct (index_wraps S (Qceiling k)) as (b & Hb & Hib); [fold n; lia|].
  unfold percentile. destruct S as [|x S]; [congruence|].
  fold n. fold k. cbv zeta.
  destruct (Z.eqb_spec (Qfloor k) (Qceiling k)) as [E|E].
  - assert (Ei : int_of_float k = Qceiling k).
    { unfold int_of_float. destruct (Qle_bool 0 k) eqn:Ek; [|reflexivity].
      apply Qle_bool_iff in Ek.
      assert (E0 : k == 0) by (apply Qle_antisym; assumption).
      rewrite E0. reflexivity. }
    rewrite Ei, Hib. eexists. reflexivity.
  - rewrite Hia. cbn [mbind result_bind Py.bind]. rewrite Hib.
    eexists. reflexivity.
Qed.

(** At -50 the three-element list answers a number (its last element). *)
Lemma percentile_negative_wraps_witness :
  exists v, percentile [100; 200; 300] (-(50)) = Ok (Some v).
Proof.
  apply percentile_negative_wraps; [discriminate | easy | reflexivity].
Defined.

Example percentile_minus_50 : percentile [100; 200; 300] (-(50)) = Ok (Some 300).
Proof. reflexivity. Qed.

End PercentileEdges.

(** ** The percentile calculator in double precision *)

Section DoublePercentile.

Import Double.









Example hundred_is_100 : of_int 100 = Ok hundred.
Proof. reflexivity. Qed.














End DoublePercentile.

(** ** What the series hold *)

Section SeriesValues.

Import Dashboard.

(** The samples of one second among selected rows. *)
Lemma filter_second_nonempty (sel : list Sample) (sec : Z) :
  sec ∈ Sql.distinct_timestamps sel <->
  List.filter (fun x => timestamp x =? sec) sel <> [].
Proof.
  rewrite elem_of_distinct_timestamps. split.
  - intros (s & Hs & E) Hnil.
    assert (Hin : In s (List.filter (fun x => timestamp x =? sec) sel)).
    { apply filter_In. split; [apply list_elem_of_In; exact Hs|].
      apply Z.eqb_eq. exact E. }
    rewrite Hnil in Hin. exact Hin.
  - intros Hne. destruct (List.filter _ sel) as [|x g] eqn:E; [congruence|].
    assert (Hx : In x (List.filter (fun x => timestamp x =? sec) sel))
      by (rewrite E; left; reflexivity).
    apply filter_In in Hx as [Hx Ht]. exists x.
    split; [apply list_elem_of_In; exact Hx | apply Z.eqb_eq; exact Ht].
Qed.

(** The dict of a grouped query holds, under each second with rows, the
    aggregate of the rows of that second. *)
Lemma grouped_dict_lookup {V} (h : list Sample -> V) (sel : list Sample) (sec : Z) :
  dict_of_rows ((fun g => (g.1, h g.2)) <$> Sql.group_by_timestamp sel) !! sec
  = match List.filter (fun x => timestamp x =? sec) sel with
    | [] => None
    | g => Some (h g)
    end.
Proof.
  assert (Erows : (fun g => (g.1, h g.2)) <$> Sql.group_by_timestamp sel
                  = (fun t => (t, h (List.filter (fun x => timestamp x =? t) sel)))
                      <$> Sql.distinct_timestamps sel).
  { unfold Sql.group_by_timestamp. rewrite <- list_fmap_compose. reflexivity. }
  rewrite Erows.
  destruct (decide (sec ∈ Sql.distinct_timestamps sel)) as [Hin|Hout].
  - rewrite (dict_of_rows_present
               (fun t => h (List.filter (fun x => timestamp x =? t) sel)))
      by exact Hin.
    apply filter_second_nonempty in Hin.
    destruct (List.filter _ sel); [congruence | reflexivity].
  - rewrite dict_of_rows_absent.
    + destruct (List.filter _ sel) as [|x g] eqn:E; [reflexivity|].
      exfalso. apply Hout. apply filter_second_nonempty. rewrite E. discriminate.
    + rewrite <- list_fmap_compose.
      rewrite (list_fmap_ext _ id (Sql.distinct_timestamps sel))
        by (intros; reflexivity).
      rewrite list_fmap_id. exact Hout.
Qed.

(** Inside the window a second keeps its rows under any further
    conditions. *)
Lemma filter_second_select_more (start end_ sec : Z) (conds : list Sql.cond)
    (t : list Sample) :
  start <= sec <= end_ ->
  List.filter (fun x => timestamp x =? sec)
              (Sql.select (Sql.TimestampBetween start end_ :: conds) t)
  = List.filter (fun x => timestamp x =? sec) (Sql.select conds t).
Proof.
  intros Hsec. unfold Sql.select.
  induction t as [|x t IH]; [reflexivity|].
  cbn [List.filter forallb]. cbn [Sql.holds].
  destruct (forallb (fun c => Sql.holds c x) conds) eqn:Ec.
  - rewrite andb_true_r. cbn [List.filter].
    destruct (Z.eqb_spec (timestamp x) sec) as [E|Hne].
    + destruct (Z.leb_spec start (timestamp x)); [|lia].
      destruct (Z.leb_spec (timestamp x) end_); [|lia].
      cbn [andb List.filter]. rewrite E, Z.eqb_refl. f_equal. exact IH.
    + destruct ((start <=? timestamp x) && (timestamp x <=? end_)); [|exact IH].
      cbn [List.filter]. destruct (Z.eqb_spec (timestamp x) sec); [lia|]. exact IH.
  - rewrite andb_false_r. exact IH.
Qed.

Lemma fill_values {V} (zero : V) (m : gmap Z V) (start end_ : Z) :
  fill zero m start end_
  = (range start (end_ + 1),
     (fun sec => default zero (m !! sec)) <$> range start (end_ + 1)).
Proof. reflexivity. Qed.

Lemma elem_of_range (start stop sec : Z) :
  sec ∈ range start stop -> start <= sec < stop.
Proof.
  unfold range. intros Hin. apply list_elem_of_fmap in Hin as (i & -> & Hi).
  apply elem_of_seq in Hi. lia.
Qed.

Lemma select_nil (t : list Sample) : Sql.select [] t = t.
Proof.
  unfold Sql.select. induction t as [|x t IH]; [reflexivity|].
  cbn [List.filter forallb]. f_equal. exact IH.
Qed.

Lemma filter_second_window (start end_ sec : Z) (t : list Sample) :
  start <= sec <= end_ ->
  List.filter (fun x => timestamp x =? sec)
              (Sql.select [Sql.TimestampBetween start end_] t)
  = List.filter (fun x => timestamp x =? sec) t.
Proof.
  intros Hsec. rewrite filter_second_select_more by exact Hsec.
  rewrite select_nil. reflexivity.
Qed.

(** X9. The throughput series buckets by exact second: whatever the
    window, the answer of [api_tps] lists the seconds from
    [end - window + 1] to [end] and, for each, the number of stored samples
    with that timestamp. *)
Theorem tps_series_counts (window end_ : option Z) (w : World) :
  let e := or_else end_ (clock w) in
  let s := e - default 60 window + 1 in
  (api_tps window end_ w).1
  = Ok (range s (e + 1),
        (fun sec =>
           Z.of_nat (length (List.filter (fun x => timestamp x =? sec) (table w))))
          <$> range s (e + 1)).
Proof.
  intros e s. rewrite api_tps_run. fold e s. cbn [fst]. rewrite fill_values.
  do 2 f_equal. apply list_fmap_ext. intros i sec Hi.
  apply list_elem_of_lookup_2, elem_of_range in Hi.
  unfold tps_rows. rewrite (grouped_dict_lookup Sql.count).
  rewrite filter_second_window by lia.
  destruct (List.filter _ (table w)); reflexivity.
Qed.



Lemma select_cons (c : Sql.cond) (conds : list Sql.cond) (t : list Sample) :
  Sql.select (c :: conds) t = List.filter (Sql.holds c) (Sql.select conds t).
Proof.
  unfold Sql.select. induction t as [|x t IH]; [reflexivity|].
  simpl in IH |- *.
  destruct (Sql.holds c x) eqn:Ec;
    destruct (forallb (fun c0 => Sql.holds c0 x) conds) eqn:Ef;
    simpl; rewrite ?Ec, IH; reflexivity.
Qed.





End SeriesValues.

(** ** More about the ingest handler *)

Section IngestMore.

Import Dashboard.

Lemma receive_metrics_stored (data : json) (w : World) :
  (receive_metrics data w).1 = Ok 200 ->
  exists d s,
    data = JObj d /\ resolved d (clock w) s
    /\ (receive_metrics data w).2 = mkWorld (table w ++ [s]) (clock w).
Proof.
  intros Hrun.
  assert (Hobj : exists d, data = JObj d).
  { unfold receive_metrics in Hrun.
    destruct (truthy data); simpl in Hrun; [|discriminate].
    destruct data; try discriminate. eauto. }
  destruct Hobj as [d ->].
  destruct (receive_metrics (JObj d) w) as [r w'] eqn:E. simpl in Hrun. subst r.
  apply receive_metrics_200 in E as (_ & s & Hres & ->).
  exists d, s. auto.
Qed.

(** X12. The ingest handler never touches the clock or a stored sample.
    It answers 400 exactly on a falsy body and then stores nothing; an
    exception stores nothing; a 200 appends exactly one sample, stamped with
    the clock, behind the samples already stored. *)
Theorem receive_metrics_outcomes (data : json) (w : World) :
  clock (receive_metrics data w).2 = clock w
  /\ (((receive_metrics data w).1 = Ok 400 /\ truthy data = false
       /\ (receive_metrics data w).2 = w)
      \/ (exists e, (receive_metrics data w).1 = Raise e /\ truthy data = true
                    /\ (receive_metrics data w).2 = w)
      \/ ((receive_metrics data w).1 = Ok 200 /\ truthy data = true
          /\ exists s, table (receive_metrics data w).2 = table w ++ [s]
                       /\ timestamp s = clock w)).
Proof.
  unfold receive_metrics.
  destruct (truthy data) eqn:Et; cbn [negb]; [|split; [reflexivity|left; auto]].
  destruct data;
    try (split; [reflexivity|]; right; left; exists AttributeError; auto; fail).
  unfold mbind, M_bind, bind, lift, time_time, insert, mret, M_ret, ret.
  destruct (resolve_success m) as [succ|e1];
    [|split; [reflexivity|]; right; left; exists e1; auto].
  destruct (str _) as [sc|e2];
    [|split; [reflexivity|]; right; left; exists e2; auto].
  destruct (int _) as [tc|e3];
    [|split; [reflexivity|]; right; left; exists e3; auto].
  destruct (float _) as [rt|e4];
    [|split; [reflexivity|]; right; left; exists e4; auto].
  destruct (bind_text (get m "label" _)) as [lab|e5];
    [|split; [reflexivity|]; right; left; exists e5; auto].
  destruct (bind_text (if succ =? 0 then _ else _)) as [msg|e6];
    [|split; [reflexivity|]; right; left; exists e6; auto].
  split; [reflexivity|]. right; right. split; [reflexivity|]. split; [reflexivity|].
  eexists. split; reflexivity.
Qed.

(** X13. A key that is present wins even when its value cannot be used:
    a payload whose [responseTime] or [activeThreads] is [null] is not
    resolved from the next alias or the default; the handler raises and
    stores nothing. *)
Theorem null_field_is_not_skipped (d : gmap string json) (w : World) :
  d !! "responseTime" = Some JNull \/ d !! "activeThreads" = Some JNull ->
  exists e, receive_metrics (JObj d) w = (Raise e, w).
Proof.
  intros Hnull.
  assert (Hne : d <> ∅).
  { intros ->. destruct Hnull as [H|H]; rewrite lookup_empty in H; discriminate. }
  unfold receive_metrics. cbn [truthy].
  rewrite bool_decide_eq_true_2 by exact Hne. cbn [negb].
  unfold mbind, M_bind, bind, lift, time_time, insert, mret, M_ret, ret.
  destruct (resolve_success d) as [succ|e1]; [|eauto].
  destruct (str _) as [sc|e2]; [|eauto].
  destruct (int (get d "activeThreads" _)) as [tc|e3] eqn:E3; [|eauto].
  destruct (float (get d "responseTime" _)) as [rt|e4] eqn:E4; [|eauto].
  exfalso. destruct Hnull as [H|H].
  - unfold get in E4. rewrite H in E4. discriminate.
  - unfold get in E3. rewrite H in E3. discriminate.
Qed.

Lemma null_field_is_not_skipped_witness :
  exists e,
    receive_metrics
      (JObj (<["responseTime" := JNull]> (<["avg" := JFloat (25 # 2)]> ∅)))
      (mkWorld [] 1000)
    = (Raise e, mkWorld [] 1000).
Proof.
  apply null_field_is_not_skipped. left. reflexivity.
Defined.

Lemma filter_snoc {A} (p : A -> bool) (l : list A) (x : A) :
  List.filter p (l ++ [x]) = List.filter p l ++ (if p x then [x] else []).
Proof.
  induction l as [|y l IH]; simpl; [destruct (p x); reflexivity|].
  rewrite IH. destruct (p y); reflexivity.
Qed.

(** X14. A sample just stored shows in the throughput of its second: after
    a 200 from the ingest handler, the [api_tps] entry of the clock's second
    is one more than before and every other entry of the window is as
    before. *)
Theorem ingested_sample_counts_in_tps (data : json) (window : option Z)
    (w : World) (sec : Z) :
  (receive_metrics data w).1 = Ok 200 ->
  clock w - default 60 window + 1 <= sec <= clock w ->
  exists timestamps tps timestamps' tps' n,
    (api_tps window None w).1 = Ok (timestamps, tps)
    /\ (api_tps window None (receive_metrics data w).2).1 = Ok (timestamps', tps')
    /\ tps !! Z.to_nat (sec - (clock w - default 60 window + 1)) = Some n
    /\ tps' !! Z.to_nat (sec - (clock w - default 60 window + 1))
       = Some (if sec =? clock w then n + 1 else n).
Proof.
  intros Hrun Hsec.
  destruct (receive_metrics_stored data w Hrun) as (d & smp & _ & Hres & ->).
  destruct Hres as (Hts & _).
  destruct (tps_counts_samples window None w sec) as (ts & tps & Ht & Hn);
    [exact Hsec|].
  destruct (tps_counts_samples window None (mkWorld (table w ++ [smp]) (clock w)) sec)
    as (ts' & tps' & Ht' & Hn'); [exact Hsec|].
  cbn [table clock] in Hn'. change (or_else None (clock w)) with (clock w) in Hn, Hn'.
  exists ts, tps, ts', tps'. eexists.
  split; [exact Ht|]. split; [exact Ht'|]. split; [exact Hn|].
  rewrite Hn'. f_equal. rewrite filter_snoc, Hts, length_app, (Z.eqb_sym sec).
  destruct (clock w =? sec); simpl; lia.
Qed.

Lemma ingested_sample_counts_in_tps_witness :
  exists timestamps tps timestamps' tps' n,
    (api_tps (Some 2) None (mkWorld [mkSample 1000 "Pay" 10 1 1 "200" ""] 1000)).1
    = Ok (timestamps, tps)
    /\ (api_tps (Some 2) None
          (receive_metrics (JObj (<["label" := JStr "Pay"]> ∅))
             (mkWorld [mkSample 1000 "Pay" 10 1 1 "200" ""] 1000)).2).1
       = Ok (timestamps', tps')
    /\ tps !! 1%nat = Some n
    /\ tps' !! 1%nat = Some (n + 1).
Proof.
  apply (ingested_sample_counts_in_tps (JObj (<["label" := JStr "Pay"]> ∅)) (Some 2)
           (mkWorld [mkSample 1000 "Pay" 10 1 1 "200" ""] 1000) 1000).
  - vm_compute. reflexivity.
  - vm_compute. split; discriminate.
Defined.

(** X15. A sample just stored shows in the aggregate: after a 200 from the
    ingest handler the unfiltered aggregate of [notreqired.py] has a row for
    the stored label, whose count is one more than the number of samples of
    that label stored before. *)
Theorem ingested_sample_counts_in_aggregate (data : json) (w : World) :
  (receive_metrics data w).1 = Ok 200 ->
  exists smp rows r,
    table (receive_metrics data w).2 = table w ++ [smp]
    /\ (Notreqired.api_aggregate None None None (receive_metrics data w).2).1 = Ok rows
    /\ r ∈ rows
    /\ Notreqired.agg_label r = label smp
    /\ Notreqired.agg_count r
       = Z.of_nat (length (Notreqired.of_label (label smp) (table w))) + 1.
Proof.
  intros Hrun.
  destruct (receive_metrics_stored data w Hrun) as (d & smp & _ & _ & ->).
  set (w' := mkWorld (table w ++ [smp]) (clock w)).
  destruct (api_aggregate_rows_perm None None None w') as (res & rows & Hres & Hq & Hp).
  destruct (notreqired_rows None None None w') as (rows' & Hq' & Hrows).
  rewrite Hq in Hq'. injection Hq' as <-.
  change (Notreqired.aggregate_conds None None None) with (@nil Sql.cond) in *.
  rewrite select_nil in *. cbn [table w'] in *.
  destruct (build_rows_counts _ res Hres) as [Hlabels _].
  assert (Hin : label smp ∈ Notreqired.agg_label <$> rows).
  { rewrite Hp, Hlabels. apply elem_of_distinct, list_elem_of_fmap.
    exists smp. split; [reflexivity|]. apply elem_of_app. right. left. }
  apply list_elem_of_fmap in Hin as (r & Hlab & Hr).
  exists smp, rows, r. split; [reflexivity|]. split; [exact Hq|].
  split; [exact Hr|]. split; [auto|].
  destruct (Hrows r Hr) as (Hcount & _). rewrite Hcount, <- Hlab.
  unfold Notreqired.of_label. rewrite filter_snoc, String.eqb_refl, length_app.
  simpl. lia.
Qed.

Lemma ingested_sample_counts_in_aggregate_witness :
  exists smp rows r,
    table (receive_metrics (JObj (<["label" := JStr "Pay"]> ∅))
             (mkWorld [mkSample 1000 "Pay" 10 1 1 "200" ""] 1000)).2
    = [mkSample 1000 "Pay" 10 1 1 "200" ""] ++ [smp]
    /\ (Notreqired.api_aggregate None None None
          (receive_metrics (JObj (<["label" := JStr "Pay"]> ∅))
             (mkWorld [mkSample 1000 "Pay" 10 1 1 "200" ""] 1000)).2).1 = Ok rows
    /\ r ∈ rows
    /\ Notreqired.agg_label r = label smp
    /\ Notreqired.agg_count r
       = Z.of_nat (length (Notreqired.of_label (label smp)
                             [mkSample 1000 "Pay" 10 1 1 "200" ""])) + 1.
Proof.
  apply (ingested_sample_counts_in_aggregate (JObj (<["label" := JStr "Pay"]> ∅))
           (mkWorld [mkSample 1000 "Pay" 10 1 1 "200" ""] 1000)).
  vm_compute. reflexivity.
Defined.

End IngestMore.

(** ** The errors and success breakdowns *)

Section Breakdowns.

Import Dashboard.

Lemma Sorted_fmap {A B} (R : B -> B -> Prop) (f : A -> B) (l : list A) :
  Sorted (fun a b => R (f a) (f b)) l -> Sorted R (f <$> l).
Proof.
  induction 1 as [|x l Hs IH Hhd]; [constructor|].
  rewrite fmap_cons. constructor; [exact IH|].
  destruct Hhd; [constructor | rewrite fmap_cons; constructor; assumption].
Qed.

(** The rows fetched by [api_errors], before [ORDER BY]. *)
Lemma api_errors_run (start end_ : option Z) (w : World) :
  let sel := Sql.select (Sql.SuccessEq 0 :: time_conds start end_) (table w) in
  let keys := Sql.distinct ((fun s => (label s, status_code s)) <$> sel) in
  exists rows,
    (api_errors start end_ w).1 = Ok rows
    /\ Sorted (fun a b => err_count b <= err_count a) rows
    /\ rows ≡ₚ (fun k =>
                  let g := List.filter
                             (fun s => bool_decide ((label s, status_code s) = k)) sel in
                  mkErrorRow k.1 k.2 (Sql.count g)
                    (String.concat "," (Sql.distinct (error_message <$> g))))
                 <$> keys.
Proof.
  intros sel keys. eexists. split; [reflexivity|]. split.
  - apply (Sorted_fmap (fun a b => err_count b <= err_count a)).
    apply (sorted_desc_Sorted (fun r : string * string * Z * string => r.1.2)).
  - rewrite sorted_desc_perm, <- list_fmap_compose. reflexivity.
Qed.

(** X16. The errors breakdown counts every failed sample of the range
    exactly once: its rows come by descending count, no (label, status)
    pair has two rows, every row counts at least one sample, and the counts
    add up to the number of stored samples with [success = 0] inside the
    time bounds. *)
Theorem errors_breakdown_counts (start end_ : option Z) (w : World) :
  exists rows,
    (api_errors start end_ w).1 = Ok rows
    /\ Sorted (fun a b => err_count b <= err_count a) rows
    /\ NoDup ((fun r => (err_label r, err_status r)) <$> rows)
    /\ (forall r, r ∈ rows -> 1 <= err_count r)
    /\ total (err_count <$> rows)
       = Z.of_nat (length (List.filter (fun s => success s =? 0)
                                       (Sql.select (time_conds start end_) (table w)))).
Proof.
  destruct (api_errors_run start end_ w) as (rows & Hrun & Hsorted & Hp).
  change (fun s : Sample => success s =? 0) with (Sql.holds (Sql.SuccessEq 0)).
  rewrite <- select_cons.
  set (sel := Sql.select (Sql.SuccessEq 0 :: time_conds start end_) (table w)) in *.
  set (keys := Sql.distinct ((fun s => (label s, status_code s)) <$> sel)) in *.
  exists rows. split; [exact Hrun|]. split; [exact Hsorted|]. split; [|split].
  - rewrite Hp, <- list_fmap_compose.
    rewrite (list_fmap_ext _ id keys) by (intros i [l c] _; reflexivity).
    rewrite list_fmap_id. apply distinct_NoDup.
  - intros r Hr. rewrite Hp in Hr. apply list_elem_of_fmap in Hr as (k & -> & Hk).
    cbn [err_count].
    apply elem_of_distinct, list_elem_of_fmap in Hk as (s & -> & Hs).
    assert (Hin : In s (List.filter
                          (fun s0 => bool_decide ((label s0, status_code s0)
                                                  = (label s, status_code s))) sel)).
    { apply filter_In. split; [apply list_elem_of_In; exact Hs|].
      apply bool_decide_eq_true_2. reflexivity. }
    unfold Sql.count. destruct (List.filter _ sel); [inversion Hin | simpl; lia].
  - rewrite (total_perm _ _ (fmap_Permutation err_count _ _ Hp)).
    rewrite <- list_fmap_compose.
    apply (group_sizes_total (fun s => (label s, status_code s)) keys sel).
    + apply distinct_NoDup.
    + intros x Hx. apply elem_of_distinct, list_elem_of_fmap. exists x. auto.
Qed.

(** The rows fetched by [api_success], before [ORDER BY]. *)
Lemma api_success_run (start end_ : option Z) (w : World) :
  let sel := Sql.select (Sql.SuccessEq 1 :: time_conds start end_) (table w) in
  exists rows,
    (api_success start end_ w).1 = Ok rows
    /\ Sorted (fun a b => ok_count b <= ok_count a) rows
    /\ rows ≡ₚ (fun l =>
                  let g := List.filter (fun s => bool_decide (label s = l)) sel in
                  mkSuccessRow l (Sql.count g) (round2 (Sql.avg response_time g))
                    (Py.min (response_time <$> g)) (Py.max (response_time <$> g)))
                 <$> Sql.distinct (label <$> sel).
Proof.
  intros sel. subst sel. eexists. split; [reflexivity|]. split.
  - apply (Sorted_fmap (fun a b => ok_count b <= ok_count a)).
    apply (sorted_desc_Sorted (fun r : string * Z * Q * Q * Q => r.1.1.1.2)).
  - rewrite sorted_desc_perm, <- list_fmap_compose.
    match goal with
    | |- ?f <$> ?l ≡ₚ ?g <$> ?l =>
        rewrite (list_fmap_ext f g l); [reflexivity|]
    end.
    intros i l _. cbn [compose fst snd].
    change (List.filter (fun s => String.eqb (label s) l) ?t)
      with (Notreqired.of_label l t).
    rewrite of_label_filter. reflexivity.
Qed.

(** X17. The success breakdown counts every successful sample of the range
    exactly once: its rows come by descending count, no label has two rows,
    every row counts at least one sample, the counts add up to the number
    of stored samples with [success = 1] inside the time bounds, and in
    every row [min <= max]. *)
Theorem success_breakdown_counts (start end_ : option Z) (w : World) :
  exists rows,
    (api_success start end_ w).1 = Ok rows
    /\ Sorted (fun a b => ok_count b <= ok_count a) rows
    /\ NoDup (ok_label <$> rows)
    /\ (forall r, r ∈ rows -> 1 <= ok_count r /\ (ok_min r <= ok_max r)%Q)
    /\ total (ok_count <$> rows)
       = Z.of_nat (length (List.filter (fun s => success s =? 1)
                                       (Sql.select (time_conds start end_) (table w)))).
Proof.
  destruct (api_success_run start end_ w) as (rows & Hrun & Hsorted & Hp).
  change (fun s : Sample => success s =? 1) with (Sql.holds (Sql.SuccessEq 1)).
  rewrite <- select_cons.
  set (sel := Sql.select (Sql.SuccessEq 1 :: time_conds start end_) (table w)) in *.
  exists rows. split; [exact Hrun|]. split; [exact Hsorted|]. split; [|split].
  - rewrite Hp, <- list_fmap_compose.
    rewrite (list_fmap_ext _ id (Sql.distinct (label <$> sel)))
      by (intros; reflexivity).
    rewrite list_fmap_id. apply distinct_NoDup.
  - intros r Hr. rewrite Hp in Hr. apply list_elem_of_fmap in Hr as (l & -> & Hl).
    cbn [ok_count ok_min ok_max].
    apply elem_of_distinct, list_elem_of_fmap in Hl as (s & -> & Hs).
    assert (Hin : In s (List.filter (fun s0 => bool_decide (label s0 = label s)) sel)).
    { apply filter_In. split; [apply list_elem_of_In; exact Hs|].
      apply bool_decide_eq_true_2. reflexivity. }
    destruct (List.filter _ sel) as [|x g] eqn:E; [inversion Hin|].
    split; [unfold Sql.count; simpl; lia|].
    assert (Hne : response_time <$> x :: g <> []) by discriminate.
    destruct (min_spec _ Hne) as [_ Hmin]. destruct (max_spec _ Hne) as [Hmax _].
    apply Hmin. exact Hmax.
  - rewrite (total_perm _ _ (fmap_Permutation ok_count _ _ Hp)).
    rewrite <- list_fmap_compose.
    apply (group_sizes_total label (Sql.distinct (label <$> sel)) sel).
    + apply distinct_NoDup.
    + intros x Hx. apply elem_of_distinct, list_elem_of_fmap. exists x. auto.
Qed.

Lemma flags_partition (l : list Sample) :
  (forall s, s ∈ l -> success s = 0 \/ success s = 1) ->
  (length (List.filter (fun s => (success s =? 0)%Z) l)
   + length (List.filter (fun s => (success s =? 1)%Z) l) = length l)%nat.
Proof.
  induction l as [|s l IH]; intros Hflag; [reflexivity|].
  assert (IH' := IH (fun x Hx => Hflag x (list_elem_of_further _ _ _ Hx))).
  cbn [List.filter]. destruct (Hflag s) as [E|E]; [left | |]; rewrite E; simpl; lia.
Qed.

(** X18. Over a table of 0/1 flags the two breakdowns split the range: the
    counts of the errors rows and of the success rows together add up to
    the number of stored samples inside the time bounds. *)
Theorem breakdowns_split_the_range (start end_ : option Z) (w : World) :
  (forall s, s ∈ table w -> success s = 0 \/ success s = 1) ->
  exists errs oks,
    (api_errors start end_ w).1 = Ok errs
    /\ (api_success start end_ w).1 = Ok oks
    /\ total (err_count <$> errs) + total (ok_count <$> oks)
       = Z.of_nat (length (Sql.select (time_conds start end_) (table w))).
Proof.
  intros Hflag.
  destruct (api_errors_run start end_ w) as (errs & He & _ & Hpe).
  destruct (api_success_run start end_ w) as (oks & Ho & _ & Hpo).
  exists errs, oks. split; [exact He|]. split; [exact Ho|].
  assert (Ee : total (err_count <$> errs)
               = Z.of_nat (length (Sql.select (Sql.SuccessEq 0 :: time_conds start end_)
                                              (table w)))).
  { rewrite (total_perm _ _ (fmap_Permutation err_count _ _ Hpe)).
    rewrite <- list_fmap_compose.
    apply (group_sizes_total (fun s => (label s, status_code s))).
    - apply distinct_NoDup.
    - intros x Hx. apply elem_of_distinct, list_elem_of_fmap. exists x. auto. }
  assert (Eo : total (ok_count <$> oks)
               = Z.of_nat (length (Sql.select (Sql.SuccessEq 1 :: time_conds start end_)
                                              (table w)))).
  { rewrite (total_perm _ _ (fmap_Permutation ok_count _ _ Hpo)).
    rewrite <- list_fmap_compose.
    apply (group_sizes_total label).
    - apply distinct_NoDup.
    - intros x Hx. apply elem_of_distinct, list_elem_of_fmap. exists x. auto. }
  rewrite Ee, Eo, !select_cons.
  set (t := Sql.select (time_conds start end_) (table w)).
  assert (Hpart := flags_partition t).
  change (Sql.holds (Sql.SuccessEq 0)) with (fun s : Sample => success s =? 0).
  change (Sql.holds (Sql.SuccessEq 1)) with (fun s : Sample => success s =? 1).
  rewrite <- Hpart; [lia|].
  intros s Hs. apply Hflag. unfold t in Hs. apply elem_of_select in Hs. tauto.
Qed.

Lemma breakdowns_split_the_range_witness :
  exists errs oks,
    (api_errors None None
       (mkWorld [mkSample 1000 "Login" 100 1 5 "200" "";
                 mkSample 1001 "Login" 300 0 5 "500" "boom"] 1001)).1 = Ok errs
    /\ (api_success None None
          (mkWorld [mkSample 1000 "Login" 100 1 5 "200" "";
                    mkSample 1001 "Login" 300 0 5 "500" "boom"] 1001)).1 = Ok oks
    /\ total (err_count <$> errs) + total (ok_count <$> oks) = 2.
Proof.
  apply (breakdowns_split_the_range None None
           (mkWorld [mkSample 1000 "Login" 100 1 5 "200" "";
                     mkSample 1001 "Login" 300 0 5 "500" "boom"] 1001)).
  intros s Hs. cbn [table] in Hs.
  repeat (apply elem_of_cons in Hs as [->|Hs]; [simpl; auto|]).
  inversion Hs.
Defined.

End Breakdowns.

(** ** The dashboard page *)

Section PageFacts.

Import Dashboard Page.

Lemma insert_str_perm (t : string) (l : list string) : insert_str t l ≡ₚ t :: l.
Proof.
  induction l as [|u l IH]; [reflexivity|].
  cbn [insert_str]. destruct (String.leb t u); [reflexivity|].
  rewrite IH. apply Permutation_swap.
Qed.

Lemma sorted_str_perm (l : list string) : sorted_str l ≡ₚ l.
Proof.
  induction l as [|x l IH]; [reflexivity|].
  cbn [sorted_str foldr]. rewrite insert_str_perm. fold (sorted_str l).
  rewrite IH. reflexivity.
Qed.

Lemma string_gt_lt (t u : string) :
  String.compare t u = Gt -> String.compare u t = Lt.
Proof.
  intros E. rewrite String.compare_antisym, E. reflexivity.
Qed.

Lemma insert_str_Sorted (t : string) (l : list string) :
  t ∉ l ->
  Sorted (fun a b => String.compare a b = Lt) l ->
  Sorted (fun a b => String.compare a b = Lt) (insert_str t l).
Proof.
  induction l as [|u l IH]; intros Hnot Hs.
  - repeat constructor.
  - apply not_elem_of_cons in Hnot as [Hne Hnot].
    apply Sorted_inv in Hs as [Hs Hhd].
    cbn [insert_str]. unfold String.leb.
    destruct (String.compare t u) eqn:E.
    + apply String.compare_eq_iff in E. contradiction.
    + constructor; [constructor; assumption|]. constructor. exact E.
    + constructor; [apply IH; assumption|].
      apply string_gt_lt in E.
      destruct l as [|v l]; [constructor; exact E|].
      cbn [insert_str]. destruct (String.leb t v).
      * constructor. exact E.
      * constructor. inversion Hhd. assumption.
Qed.

Lemma sorted_str_Sorted (l : list string) :
  NoDup l -> Sorted (fun a b => String.compare a b = Lt) (sorted_str l).
Proof.
  induction 1 as [|x l Hx Hnd IH]; [constructor|].
  cbn [sorted_str foldr]. fold (sorted_str l).
  apply insert_str_Sorted; [|exact IH].
  rewrite sorted_str_perm. exact Hx.
Qed.

(** X22. The label filter of the dashboard lists every stored label exactly
    once, in strictly ascending order, and nothing else; building the page
    leaves the store as it was. *)
Theorem dashboard_lists_each_label_once (w : World) :
  exists labels,
    dashboard_labels w = (Ok labels, w)
    /\ Sorted (fun a b => String.compare a b = Lt) labels
    /\ NoDup labels
    /\ forall l, l ∈ labels <-> exists s, s ∈ table w /\ label s = l.
Proof.
  eexists. split; [reflexivity|].
  pose proof (distinct_NoDup (label <$> table w)) as Hnd.
  split; [|split].
  - apply sorted_str_Sorted. exact Hnd.
  - rewrite sorted_str_perm. exact Hnd.
  - intros l. rewrite sorted_str_perm, elem_of_distinct, list_elem_of_fmap.
    split; intros (s & H1 & H2); exists s; auto.
Qed.

End PageFacts.

(** ** The stores the service can reach *)

Section Reachable.

Import Dashboard.

(** One request to the ingest endpoint: nothing stored, or one sample
    appended. *)
Lemma receive_metrics_step (data : json) (w : World) :
  (receive_metrics data w).2 = w
  \/ exists s,
       (receive_metrics data w).2 = mkWorld (table w ++ [s]) (clock w)
       /\ timestamp s = clock w
       /\ (success s = 0 \/ success s = 1)
       /\ (success s = 1 -> error_message s = ""%string).
Proof.
  unfold receive_metrics.
  destruct (truthy data); [|left; reflexivity]. cbn [negb].
  destruct data; try (left; reflexivity).
  unfold mbind, M_bind, bind, lift, time_time, insert, mret, M_ret, ret.
  destruct (resolve_success m) as [succ|e1] eqn:E1; [|left; reflexivity].
  destruct (str _) as [sc|e2]; [|left; reflexivity].
  destruct (int _) as [tc|e3]; [|left; reflexivity].
  destruct (float _) as [rt|e4]; [|left; reflexivity].
  destruct (bind_text (get m "label" _)) as [lab|e5]; [|left; reflexivity].
  destruct (bind_text (if succ =? 0 then _ else _)) as [msg|e6] eqn:E6;
    [|left; reflexivity].
  right. eexists. split; [reflexivity|]. cbn [timestamp success error_message].
  split; [reflexivity|]. split; [apply (resolve_success_flag m); exact E1|].
  intros ->. cbn in E6. congruence.
Qed.

Lemma Sorted_snoc (l : list Z) (y : Z) :
  Sorted Z.le l -> (forall x, x ∈ l -> x <= y) -> Sorted Z.le (l ++ [y]).
Proof.
  induction 1 as [|x l Hs IH Hhd]; intros Hall.
  - repeat constructor.
  - cbn [app]. constructor.
    + apply IH. intros z Hz. apply Hall. right. exact Hz.
    + destruct l as [|v l]; cbn [app].
      * constructor. apply Hall. left.
      * constructor. inversion Hhd. assumption.
Qed.

(** X25. Every store the service can reach from the empty table holds only
    success flags 0 and 1, an empty error message on every success, no
    timestamp later than the clock, and, the clock never going back, the
    samples in order of their timestamps. *)
Theorem reachable_store_invariant (w : World) :
  reachable w ->
  (forall s, s ∈ table w ->
     (success s = 0 \/ success s = 1)
     /\ (success s = 1 -> error_message s = ""%string)
     /\ timestamp s <= clock w)
  /\ Sorted Z.le (timestamp <$> table w).
Proof.
  induction 1 as [now | w now Hr [IHs IHo] Hle | w data Hr [IHs IHo]].
  - split; [|constructor]. intros s Hs. inversion Hs.
  - cbn [table clock]. split; [|exact IHo].
    intros s Hs. destruct (IHs s Hs) as (H1 & H2 & H3).
    split; [exact H1|]. split; [exact H2|]. lia.
  - destruct (receive_metrics_step data w) as [->|(s & -> & Hts & Hflag & Hmsg)];
      [auto|].
    cbn [table clock]. split.
    + intros x Hx. apply elem_of_app in Hx as [Hx|Hx]; [apply IHs; exact Hx|].
      apply list_elem_of_singleton in Hx as ->.
      split; [exact Hflag|]. split; [exact Hmsg|]. lia.
    + rewrite fmap_app. cbn [fmap list_fmap]. apply Sorted_snoc; [exact IHo|].
      intros x Hx. apply list_elem_of_fmap in Hx as (y & -> & Hy).
      rewrite Hts. apply IHs. exact Hy.
Qed.

Lemma reachable_store_invariant_witness :
  (forall s,
     s ∈ table (receive_metrics (JObj {[ "success" := JBool false ]})
                  (mkWorld (table (mkWorld [] 1000)) 1005)).2 ->
     (success s = 0 \/ success s = 1)
     /\ (success s = 1 -> error_message s = ""%string)
     /\ timestamp s
        <= clock (receive_metrics (JObj {[ "success" := JBool false ]})
                    (mkWorld (table (mkWorld [] 1000)) 1005)).2)
  /\ Sorted Z.le
       (timestamp
          <$> table (receive_metrics (JObj {[ "success" := JBool false ]})
                       (mkWorld (table (mkWorld [] 1000)) 1005)).2).
Proof.
  apply (reachable_store_invariant
           (receive_metrics (JObj {[ "success" := JBool false ]})
              (mkWorld (table (mkWorld [] 1000)) 1005)).2).
  apply reachable_post. apply reachable_tick; [apply reachable_init|].
  cbn [clock]. lia.
Defined.

End Reachable.
